(** * login-app: the in-memory identity store and the JWT auth service

    A shallow embedding of
      - [login-app/internal/storage/user.go]  (MemoryUserStore),
      - [login-app/internal/auth/service.go]  (Service),
      - the HTTP handlers and the middleware of package [auth], and
      - [login-app/internal/config]           (Load) with the part of
        [main.go] that uses it,
    together with the properties of these components.

    Go pointers to [User] are modelled by locations in an explicit heap,
    so that the copies the store takes and hands out can be told apart
    from the records they were copied from.  Every call of [time.Now()]
    consumes one reading of a clock; the mutex of the store is not
    modelled: every operation below runs as one critical section. *)

From stdpp Require Import gmap strings list fin_maps.
From Stdlib Require Import ZArith Lia Ascii.

Set Default Proof Using "Type".

(** ** Go's [time] package, as far as the program uses it *)

Module time.

(** A [time.Time] is an instant, counted in nanoseconds from the zero
    value [time.Time{}]; a [time.Duration] is a number of nanoseconds. *)
Definition Time : Type := Z.
Definition Duration : Type := Z.

Definition zero : Time := 0%Z.
Definition Second : Duration := 1000000000%Z.
Definition Hour : Duration := (3600 * 1000000000)%Z.

Definition Before (t u : Time) : bool := (t <? u)%Z.
Definition Add (t : Time) (d : Duration) : Time := (t + d)%Z.

(** [t.Truncate(d)] rounds [t] down to a multiple of [d] since the zero
    time, and returns [t] itself when [d <= 0]. *)
Definition Truncate (t : Time) (d : Duration) : Time :=
  if (d <=? 0)%Z then t else (t - t mod d)%Z.

End time.

(** ** The identity store ([login-app/internal/storage/user.go])

    The store, the state its calls run in, and its operations;
    [ListUsers] follows further down, with the loop it runs. *)

Module storage.

Inductive error : Type :=
| ErrUserNotFound
| ErrUserExists
| ErrInvalidCredentials.

#[global] Instance error_eq_dec : EqDecision error.
Proof. solve_decision. Defined.

Record User : Type := mkUser {
  ID : string;
  Email : string;
  Username : string;
  PasswordHash : string;
  FirstName : string;
  LastName : string;
  CreatedAt : time.Time;
  UpdatedAt : time.Time;
  IsActive : bool
}.

(** A non-nil [*User]. *)
Definition loc : Type := positive.

Record MemoryUserStore : Type := mkStore {
  users : gmap string loc;
  emailIdx : gmap string string;
  usernameIdx : gmap string string
}.

Definition NewMemoryUserStore : MemoryUserStore :=
  {| users := ∅; emailIdx := ∅; usernameIdx := ∅ |}.

(** The state a call runs in: the heap of [User] objects, the one store
    of the process, and how many clock readings and how many draws of
    [crypto/rand] have been consumed so far. *)
Record World : Type := mkWorld {
  heap : gmap loc User;
  store : MemoryUserStore;
  ticks : nat;
  draws : nat
}.

(** A call either returns a value in a new state, or panics (the
    run-time panic of a nil pointer dereference). *)
Inductive outcome (A : Type) : Type :=
| Done (a : A) (w : World)
| Panic.
Arguments Done {A} a w.
Arguments Panic {A}.

Definition M (A : Type) : Type := World → outcome A.

Definition ret {A} (a : A) : M A := fun w => Done a w.

Definition bind {A B} (m : M A) (k : A → M B) : M B :=
  fun w => match m w with
           | Done a w' => k a w'
           | Panic => Panic
           end.

Declare Scope go_scope.
Delimit Scope go_scope with go.
Notation "'let!' x := c1 'in' c2" := (bind c1 (fun x => c2))
  (at level 10, x name, c1 at level 100, c2 at level 200) : go_scope.
Notation "'do!' c1 'in' c2" := (bind c1 (fun _ => c2))
  (at level 10, c1 at level 100, c2 at level 200) : go_scope.
Open Scope go_scope.

(** [(T, error)] results. *)
Inductive result (E A : Type) : Type :=
| Ok (a : A)
| Err (e : E).
Arguments Ok {E A} a.
Arguments Err {E A} e.

(** *** Primitive effects *)

(** [*p] for a pointer that may be nil: reading through nil panics. *)
Definition load (p : option loc) : M User :=
  fun w => match p with
           | None => Panic
           | Some l => match heap w !! l with
                       | Some u => Done u w
                       | None => Panic
                       end
           end.

Definition panic {A} : M A := fun _ => Panic.

(** [&v] for a local [v] that escapes: a fresh heap object. *)
Definition new_loc (w : World) : loc := fresh (dom (heap w)).

Definition extend (v : User) (w : World) : World :=
  {| heap := <[new_loc w := v]> (heap w); store := store w;
     ticks := ticks w; draws := draws w |}.

Definition alloc (v : User) : M loc :=
  fun w => Done (new_loc w) (extend v w).

(** [*l = v], what a caller holding [l] can do. *)
Definition poke (l : loc) (v : User) (w : World) : World :=
  {| heap := <[l := v]> (heap w); store := store w;
     ticks := ticks w; draws := draws w |}.

Definition get_store : M MemoryUserStore := fun w => Done (store w) w.

Definition put_store (s : MemoryUserStore) : M unit :=
  fun w => Done tt {| heap := heap w; store := s;
                      ticks := ticks w; draws := draws w |}.

Definition set_users (f : gmap string loc → gmap string loc) : M unit :=
  let! s := get_store in
  put_store {| users := f (users s); emailIdx := emailIdx s;
               usernameIdx := usernameIdx s |}.

Definition set_emailIdx (f : gmap string string → gmap string string) : M unit :=
  let! s := get_store in
  put_store {| users := users s; emailIdx := f (emailIdx s);
               usernameIdx := usernameIdx s |}.

Definition set_usernameIdx (f : gmap string string → gmap string string) : M unit :=
  let! s := get_store in
  put_store {| users := users s; emailIdx := emailIdx s;
               usernameIdx := f (usernameIdx s) |}.

(** Field assignments on a local [User] value. *)
Definition with_CreatedAt (t : time.Time) (u : User) : User :=
  mkUser (ID u) (Email u) (Username u) (PasswordHash u) (FirstName u)
         (LastName u) t (UpdatedAt u) (IsActive u).
Definition with_UpdatedAt (t : time.Time) (u : User) : User :=
  mkUser (ID u) (Email u) (Username u) (PasswordHash u) (FirstName u)
         (LastName u) (CreatedAt u) t (IsActive u).
Definition with_IsActive (b : bool) (u : User) : User :=
  mkUser (ID u) (Email u) (Username u) (PasswordHash u) (FirstName u)
         (LastName u) (CreatedAt u) (UpdatedAt u) b.

Section Store.

(** The [n]-th reading of the wall clock. *)
Variable clock : nat → time.Time.

(** [time.Now()] *)
Definition Now : M time.Time :=
  fun w => Done (clock (ticks w))
                {| heap := heap w; store := store w;
                   ticks := S (ticks w); draws := draws w |}.

(** [func (s *MemoryUserStore) CreateUser(user *User) error] *)
Definition CreateUser (user : loc) : M (option error) :=
  let! u := load (Some user) in
  let! s := get_store in
  match users s !! ID u with
  | Some _ => ret (Some ErrUserExists)
  | None =>
    match emailIdx s !! Email u with
    | Some _ => ret (Some ErrUserExists)
    | None =>
      match usernameIdx s !! Username u with
      | Some _ => ret (Some ErrUserExists)
      | None =>
        let! t1 := Now in
        let! t2 := Now in
        let userCopy :=
          with_IsActive true (with_UpdatedAt t2 (with_CreatedAt t1 u)) in
        let! p := alloc userCopy in
        do! set_users (insert (ID u) p) in
        do! set_emailIdx (insert (Email u) (ID u)) in
        do! set_usernameIdx (insert (Username u) (ID u)) in
        ret None
      end
    end
  end.

(** [func (s *MemoryUserStore) GetUserByID(id string) returning a pointer and an error] *)
Definition GetUserByID (id : string) : M (result error loc) :=
  let! s := get_store in
  match users s !! id with
  | None => ret (Err ErrUserNotFound)
  | Some user =>
    let! userCopy := load (Some user) in
    let! p := alloc userCopy in
    ret (Ok p)
  end.

(** [func (s *MemoryUserStore) GetUserByEmail(email string) returning a pointer and an error];
    [s.users[userID]] is nil when the key is absent. *)
Definition GetUserByEmail (email : string) : M (result error loc) :=
  let! s := get_store in
  match emailIdx s !! email with
  | None => ret (Err ErrUserNotFound)
  | Some userID =>
    let user := users s !! userID in
    let! userCopy := load user in
    let! p := alloc userCopy in
    ret (Ok p)
  end.

(** [func (s *MemoryUserStore) GetUserByUsername(username string) returning a pointer and an error] *)
Definition GetUserByUsername (username : string) : M (result error loc) :=
  let! s := get_store in
  match usernameIdx s !! username with
  | None => ret (Err ErrUserNotFound)
  | Some userID =>
    let user := users s !! userID in
    let! userCopy := load user in
    let! p := alloc userCopy in
    ret (Ok p)
  end.

(** [func (s *MemoryUserStore) UpdateUser(user *User) error].  Each of
    the two [if] blocks either returns from the function (its value
    is [Some err]) or falls through ([None]). *)
Definition UpdateUser (user : loc) : M (option error) :=
  let! u := load (Some user) in
  let! s := get_store in
  match users s !! ID u with
  | None => ret (Some ErrUserNotFound)
  | Some p =>
    let! existingUser := load (Some p) in
    let! r1 := (if decide (Email u = Email existingUser) then ret None
           else
             let! s := get_store in
             match emailIdx s !! Email u with
             | Some _ => ret (Some ErrUserExists)
             | None =>
               do! set_emailIdx (delete (Email existingUser)) in
               do! set_emailIdx (insert (Email u) (ID u)) in
               ret None
             end) in
    match r1 with
    | Some e => ret (Some e)
    | None =>
      let! r2 := (if decide (Username u = Username existingUser) then ret None
             else
               let! s := get_store in
               match usernameIdx s !! Username u with
               | Some _ => ret (Some ErrUserExists)
               | None =>
                 do! set_usernameIdx (delete (Username existingUser)) in
                 do! set_usernameIdx (insert (Username u) (ID u)) in
                 ret None
               end) in
      match r2 with
      | Some e => ret (Some e)
      | None =>
        let! t := Now in
        let userCopy := with_UpdatedAt t u in
        let! q := alloc userCopy in
        do! set_users (insert (ID u) q) in
        ret None
      end
    end
  end.

(** [func (s *MemoryUserStore) DeleteUser(id string) error] *)
Definition DeleteUser (id : string) : M (option error) :=
  let! s := get_store in
  match users s !! id with
  | None => ret (Some ErrUserNotFound)
  | Some p =>
    let! user := load (Some p) in
    do! set_users (delete id) in
    do! set_emailIdx (delete (Email user)) in
    do! set_usernameIdx (delete (Username user)) in
    ret None
  end.

End Store.

End storage.

(** ** The JWT library the service calls

    The service signs and parses tokens with [github.com/golang-jwt/jwt/v5]
    (v5.2.0 in [go.mod]).  The library is not part of the repository; this
    module describes what [NewWithClaims], [SignedString] and
    [ParseWithClaims] do, with the serialisation left abstract: a token
    string either does not parse, or carries a signing method, a claim set
    and a signature.  The HMAC function is a parameter. *)

Module jwt.
Import storage.

Inductive SigningMethod : Type :=
| HS256 | HS384 | HS512     (* the [*SigningMethodHMAC] values *)
| RS256 | ES256 | PS256 | EdDSA | none.

(** The type assertion [token.Method.( *jwt.SigningMethodHMAC)]. *)
Definition is_SigningMethodHMAC (m : SigningMethod) : bool :=
  match m with
  | HS256 | HS384 | HS512 => true
  | _ => false
  end.

Inductive error : Type :=
| ErrTokenMalformed
| ErrTokenUnverifiable
| ErrTokenSignatureInvalid
| ErrTokenExpired
| ErrTokenNotValidYet
| ErrInvalidKeyType.

(** [jwt.TimePrecision], and [jwt.NewNumericDate], which truncates to it. *)
Definition TimePrecision : time.Duration := time.Second.

Definition NewNumericDate (t : time.Time) : time.Time :=
  time.Truncate t TimePrecision.

(** [jwt.RegisteredClaims]; an absent date is a nil [*NumericDate]. *)
Record RegisteredClaims : Type := mkRegisteredClaims {
  Issuer : string;
  Subject : string;
  ExpiresAt : option time.Time;
  NotBefore : option time.Time;
  IssuedAt : option time.Time
}.

Section Tokens.

(** The claims type given to the library, with its [Claims] interface. *)
Variable C : Type.
Variable registered : C → RegisteredClaims.

(** The MAC of the signing input (header and claims) under a key. *)
Variable HMAC : SigningMethod → string → SigningMethod * C → string.

Variable clock : nat → time.Time.

Inductive TokenString : Type :=
| Unparsable (raw : string)
| Compact (alg : SigningMethod) (claims : C) (signature : string).

Record Token : Type := mkToken {
  Method : SigningMethod;
  Claims : C;
  Signature : string;
  Valid : bool
}.

(** [jwt.NewWithClaims(method, claims)] *)
Definition NewWithClaims (method : SigningMethod) (claims : C) : Token :=
  {| Method := method; Claims := claims; Signature := EmptyString; Valid := false |}.

(** [token.SignedString(key)] with a [[]byte] key: only the HMAC
    methods accept such a key. *)
Definition SignedString (t : Token) (key : string) : result error TokenString :=
  if is_SigningMethodHMAC (Method t)
  then Ok (Compact (Method t) (Claims t)
                   (HMAC (Method t) key (Method t, Claims t)))
  else Err ErrInvalidKeyType.

(** [Validator.verifyExpiresAt]: an absent claim passes, a present
    one must lie after now. *)
Definition verifyExpiresAt (claims : C) (now : time.Time) : option error :=
  match ExpiresAt (registered claims) with
  | None => None
  | Some exp => if time.Before now exp then None else Some ErrTokenExpired
  end.

(** [Validator.verifyNotBefore]: an absent claim passes, a present
    one must not lie after now. *)
Definition verifyNotBefore (claims : C) (now : time.Time) : option error :=
  match NotBefore (registered claims) with
  | None => None
  | Some nbf => if negb (time.Before now nbf) then None
                else Some ErrTokenNotValidYet
  end.

(** [Validator.Validate] with the default options: expiry and
    not-before are checked, the issued-at date is not. *)
Definition Validate (claims : C) (now : time.Time) : option error :=
  match verifyExpiresAt claims now with
  | Some e => Some e
  | None => verifyNotBefore claims now
  end.

(** [jwt.ParseWithClaims(tokenString, claims, keyFunc)]: split and
    decode, ask [keyFunc] for the key, verify the signature, validate
    the claims; only then is the token marked valid. *)
Definition ParseWithClaims (tokenString : TokenString)
    (keyFunc : Token → result unit string) : M (result error Token) :=
  match tokenString with
  | Unparsable _ => ret (Err ErrTokenMalformed)
  | Compact alg claims sig =>
    let token := {| Method := alg; Claims := claims;
                    Signature := EmptyString; Valid := false |} in
    match keyFunc token with
    | Err _ => ret (Err ErrTokenUnverifiable)
    | Ok key =>
      if is_SigningMethodHMAC alg
         && bool_decide (sig = HMAC alg key (alg, claims))
      then
        let! now := Now clock in
        match Validate claims now with
        | Some e => ret (Err e)
        | None => ret (Ok {| Method := alg; Claims := claims;
                             Signature := sig; Valid := true |})
        end
      else ret (Err ErrTokenSignatureInvalid)
    end
  end.

End Tokens.

Arguments Unparsable {C} raw.
Arguments Compact {C} alg claims signature.
Arguments Method {C} t.
Arguments Claims {C} t.
Arguments Signature {C} t.
Arguments Valid {C} t.

End jwt.

(** ** Configuration ([login-app/internal/config]) *)

Module config.

Record AuthConfig : Type := mkAuthConfig {
  JWTSecret : string;
  TokenDuration : time.Duration;
  BCryptCost : Z;
  SessionTimeout : time.Duration
}.

(** Only the [Auth] part is read by the service. *)
Record Config : Type := mkConfig {
  Auth : AuthConfig
}.

End config.

(** ** The auth service ([login-app/internal/auth/service.go]) *)

Module auth.
Import storage.

Inductive error : Type :=
| ErrInvalidToken
| ErrTokenExpired
| ErrInvalidCredentials
| ErrUserNotFound
| ErrUserExists
| OfStorage (e : storage.error)   (* an error of the store, passed on *)
| OfJwt (e : jwt.error)           (* an error of the signing call *)
| OfBcrypt                        (* an error of the hashing call *)
| OfRand.                         (* an error of [rand.Read] *)

Record LoginRequest : Type := mkLoginRequest {
  lr_Email : string;
  lr_Password : string
}.

Record RegisterRequest : Type := mkRegisterRequest {
  rr_Email : string;
  rr_Username : string;
  rr_Password : string;
  rr_FirstName : string;
  rr_LastName : string
}.

(** [UserInfo]: public user information.  There is no password field. *)
Record UserInfo : Type := mkUserInfo {
  ui_ID : string;
  ui_Email : string;
  ui_Username : string;
  ui_FirstName : string;
  ui_LastName : string;
  ui_CreatedAt : time.Time
}.

(** [JWTClaims]: the three custom claims and the registered ones. *)
Record JWTClaims : Type := mkJWTClaims {
  UserID : string;
  Email : string;
  Username : string;
  Registered : jwt.RegisteredClaims
}.

Definition TokenString : Type := jwt.TokenString JWTClaims.

Record LoginResponse : Type := mkLoginResponse {
  Token : TokenString;
  User : UserInfo;
  ExpiresAt : time.Time
}.

(** [hex.EncodeToString] *)
Definition hexdigit (n : N) : ascii :=
  match n with
  | 0 => "0" | 1 => "1" | 2 => "2" | 3 => "3" | 4 => "4" | 5 => "5"
  | 6 => "6" | 7 => "7" | 8 => "8" | 9 => "9" | 10 => "a" | 11 => "b"
  | 12 => "c" | 13 => "d" | 14 => "e" | _ => "f"
  end%N%char.

Fixpoint EncodeToString (bytes : list Byte.byte) : string :=
  match bytes with
  | [] => EmptyString
  | b :: rest =>
    let n := Byte.to_N b in
    String (hexdigit (n / 16)) (String (hexdigit (n mod 16)) (EncodeToString rest))
  end.

(** [userToUserInfo]: converts a [User] to [UserInfo]. *)
Definition userToUserInfo (user : storage.User) : UserInfo :=
  {| ui_ID := storage.ID user;
     ui_Email := storage.Email user;
     ui_Username := storage.Username user;
     ui_FirstName := storage.FirstName user;
     ui_LastName := storage.LastName user;
     ui_CreatedAt := storage.CreatedAt user |}.

(** One use of the process's source of randomness. *)
Definition draw : M nat :=
  fun w => Done (draws w)
                {| heap := heap w; store := store w;
                   ticks := ticks w; draws := S (draws w) |}.

Section Service.

Variable clock : nat → time.Time.

(** The cryptographic primitives: the MAC behind the HMAC signing
    methods, bcrypt hashing (salted by the [n]-th draw of randomness)
    and comparison, and [rand.Read] of a number of bytes. *)
Variable HMAC : jwt.SigningMethod → string → jwt.SigningMethod * JWTClaims → string.
Variable bcrypt_GenerateFromPassword : string → Z → nat → option string.
Variable bcrypt_CompareHashAndPassword : string → string → bool.
Variable rand_Read : nat → nat → option (list Byte.byte).

(** The [Service] struct: its store is the store of the world. *)
Variable cfg : config.Config.

(** [hashPassword] *)
Definition hashPassword (password : string) : M (result error string) :=
  let! n := draw in
  match bcrypt_GenerateFromPassword password
          (config.BCryptCost (config.Auth cfg)) n with
  | None => ret (Err OfBcrypt)
  | Some hashedBytes => ret (Ok hashedBytes)
  end.

(** [verifyPassword]: [true] stands for a nil error. *)
Definition verifyPassword (hashedPassword password : string) : bool :=
  bcrypt_CompareHashAndPassword hashedPassword password.

(** [generateToken] *)
Definition generateToken (user : loc)
  : M (result error (TokenString * time.Time)) :=
  let! now := Now clock in
  let expiresAt := time.Add now (config.TokenDuration (config.Auth cfg)) in
  let! u := load (Some user) in
  let! iat := Now clock in
  let! nbf := Now clock in
  let claims :=
    {| UserID := storage.ID u;
       Email := storage.Email u;
       Username := storage.Username u;
       Registered :=
         {| jwt.ExpiresAt := Some (jwt.NewNumericDate expiresAt);
            jwt.IssuedAt := Some (jwt.NewNumericDate iat);
            jwt.NotBefore := Some (jwt.NewNumericDate nbf);
            jwt.Issuer := "login-app";
            jwt.Subject := storage.ID u |} |} in
  let token := jwt.NewWithClaims JWTClaims jwt.HS256 claims in
  match jwt.SignedString JWTClaims HMAC token
          (config.JWTSecret (config.Auth cfg)) with
  | Err e => ret (Err (OfJwt e))
  | Ok tokenString => ret (Ok (tokenString, expiresAt))
  end.

(** [generateID] *)
Definition generateID : M (result error string) :=
  let! n := draw in
  match rand_Read 16 n with
  | None => ret (Err OfRand)
  | Some bytes => ret (Ok (EncodeToString bytes))
  end.

(** [Register] creates a new user account.  The [&storage.User{...}]
    literal leaves the timestamps and the active flag at their zero
    values. *)
Definition Register (req : RegisterRequest) : M (result error LoginResponse) :=
  let! byEmail := GetUserByEmail (rr_Email req) in
  match byEmail with
  | Ok _ => ret (Err ErrUserExists)
  | Err _ =>
    let! byUsername := GetUserByUsername (rr_Username req) in
    match byUsername with
    | Ok _ => ret (Err ErrUserExists)
    | Err _ =>
      let! hashed := hashPassword (rr_Password req) in
      match hashed with
      | Err err => ret (Err err)
      | Ok hashedPassword =>
        let! id := generateID in
        match id with
        | Err err => ret (Err err)
        | Ok userID =>
          let! user := alloc {| storage.ID := userID;
                                storage.Email := rr_Email req;
                                storage.Username := rr_Username req;
                                storage.PasswordHash := hashedPassword;
                                storage.FirstName := rr_FirstName req;
                                storage.LastName := rr_LastName req;
                                storage.CreatedAt := time.zero;
                                storage.UpdatedAt := time.zero;
                                storage.IsActive := false |} in
          let! created := CreateUser clock user in
          match created with
          | Some err => ret (Err (OfStorage err))
          | None =>
            let! generated := generateToken user in
            match generated with
            | Err err => ret (Err err)
            | Ok (token, expiresAt) =>
              let! u := load (Some user) in
              ret (Ok {| Token := token;
                         User := userToUserInfo u;
                         ExpiresAt := expiresAt |})
            end
          end
        end
      end
    end
  end.

(** [Login] authenticates a user and returns a token. *)
Definition Login (req : LoginRequest) : M (result error LoginResponse) :=
  let! found := GetUserByEmail (lr_Email req) in
  match found with
  | Err err =>
    if decide (err = storage.ErrUserNotFound)
    then ret (Err ErrInvalidCredentials)
    else ret (Err (OfStorage err))
  | Ok user =>
    let! u := load (Some user) in
    if negb (storage.IsActive u) then ret (Err ErrInvalidCredentials)
    else if negb (verifyPassword (storage.PasswordHash u) (lr_Password req))
    then ret (Err ErrInvalidCredentials)
    else
      let! generated := generateToken user in
      match generated with
      | Err err => ret (Err err)
      | Ok (token, expiresAt) =>
        let! u := load (Some user) in
        ret (Ok {| Token := token;
                   User := userToUserInfo u;
                   ExpiresAt := expiresAt |})
      end
  end.

(** The key function [ValidateToken] hands to the parser. *)
Definition keyFunc (token : jwt.Token JWTClaims) : result unit string :=
  if jwt.is_SigningMethodHMAC (jwt.Method token)
  then Ok (config.JWTSecret (config.Auth cfg))
  else Err tt.

(** [ValidateToken] validates a JWT token and returns the user
    information.  [claims.ExpiresAt.Time] reads through a pointer
    that is nil when the token has no expiry claim. *)
Definition ValidateToken (tokenString : TokenString) : M (result error UserInfo) :=
  let! parsed :=
    jwt.ParseWithClaims JWTClaims Registered HMAC clock tokenString keyFunc in
  match parsed with
  | Err _ => ret (Err ErrInvalidToken)
  | Ok token =>
    let claims := jwt.Claims token in
    if negb (jwt.Valid token) then ret (Err ErrInvalidToken)
    else
      match jwt.ExpiresAt (Registered claims) with
      | None => panic
      | Some exp =>
        let! now := Now clock in
        if time.Before exp now then ret (Err ErrTokenExpired)
        else
          let! found := GetUserByID (UserID claims) in
          match found with
          | Err err =>
            if decide (err = storage.ErrUserNotFound)
            then ret (Err ErrInvalidToken)
            else ret (Err (OfStorage err))
          | Ok user =>
            let! u := load (Some user) in
            if negb (storage.IsActive u) then ret (Err ErrInvalidToken)
            else ret (Ok (userToUserInfo u))
          end
      end
  end.

(** [GetUserProfile] returns user profile information. *)
Definition GetUserProfile (userID : string) : M (result error UserInfo) :=
  let! found := GetUserByID userID in
  match found with
  | Err err =>
    if decide (err = storage.ErrUserNotFound)
    then ret (Err ErrUserNotFound)
    else ret (Err (OfStorage err))
  | Ok user =>
    let! u := load (Some user) in
    ret (Ok (userToUserInfo u))
  end.

End Service.

End auth.

(** ** Vocabulary of the properties *)

Import storage.

(** The record the store holds under an identifier. *)
Definition stored_record (w : World) (id : string) : option User :=
  match users (store w) !! id with
  | Some l => heap w !! l
  | None => None
  end.

(** One of the three keys of [u] is already present in the store. *)
Definition taken (s : MemoryUserStore) (u : User) : Prop :=
  is_Some (users s !! ID u) ∨ is_Some (emailIdx s !! Email u)
  ∨ is_Some (usernameIdx s !! Username u).

#[global] Instance taken_dec s u : Decision (taken s u).
Proof. unfold taken. apply _. Defined.

(** What [CreateUser] writes for [u] in the state [w]: the two
    timestamps are the next two clock readings, the flag is set. *)
Definition stamped (clock : nat → time.Time) (w : World) (u : User) : User :=
  with_IsActive true
    (with_UpdatedAt (clock (S (ticks w))) (with_CreatedAt (clock (ticks w)) u)).

(** The state after a successful [CreateUser] of [u] in [w]. *)
Definition after_create (clock : nat → time.Time) (w : World) (u : User) : World :=
  {| heap := <[new_loc w := stamped clock w u]> (heap w);
     store := {| users := <[ID u := new_loc w]> (users (store w));
                 emailIdx := <[Email u := ID u]> (emailIdx (store w));
                 usernameIdx := <[Username u := ID u]> (usernameIdx (store w)) |};
     ticks := S (S (ticks w));
     draws := draws w |}.

(** [w'] has the store of [w1], and the object the store of [w1] holds
    under [id] has not been written to: whatever else happened between
    [w1] and [w'] happened to objects of the callers. *)
Definition kept (id : string) (w1 w' : World) : Prop :=
  store w' = store w1 ∧
  ∀ l, users (store w1) !! id = Some l → heap w' !! l = heap w1 !! l.

(** Every identifier an index points to is a key of the record map. *)
Definition index_sound (s : MemoryUserStore) : Prop :=
  (∀ e id, emailIdx s !! e = Some id → is_Some (users s !! id)) ∧
  (∀ n id, usernameIdx s !! n = Some id → is_Some (users s !! id)).

(** The write operations of the store, and the states they reach from an
    empty store. *)
Inductive op : Type :=
| Create (user : loc)
| Update (user : loc)
| Delete (id : string).

Definition run_op (clock : nat → time.Time) (o : op) : M (option storage.error) :=
  match o with
  | Create user => CreateUser clock user
  | Update user => UpdateUser clock user
  | Delete id => DeleteUser id
  end.

Fixpoint run_ops (clock : nat → time.Time) (os : list op) (w : World)
  : outcome (list (option storage.error)) :=
  match os with
  | [] => Done [] w
  | o :: rest =>
    match run_op clock o w with
    | Panic => Panic
    | Done e w' =>
      match run_ops clock rest w' with
      | Panic => Panic
      | Done es w'' => Done (e :: es) w''
      end
    end
  end.

Definition reachable (clock : nat → time.Time) (w : World) : Prop :=
  ∃ h n d os es,
    run_ops clock os {| heap := h; store := NewMemoryUserStore;
                        ticks := n; draws := d |} = Done es w.

(** The three ways a login is to be refused: the email resolves to no
    record, the record is inactive, the password does not verify. *)
Inductive refused (compare : string → string → bool)
          (w : World) (req : auth.LoginRequest) : Prop :=
| refused_unknown :
    emailIdx (store w) !! auth.lr_Email req = None → refused compare w req
| refused_inactive id u :
    emailIdx (store w) !! auth.lr_Email req = Some id →
    stored_record w id = Some u → IsActive u = false → refused compare w req
| refused_password id u :
    emailIdx (store w) !! auth.lr_Email req = Some id →
    stored_record w id = Some u → IsActive u = true →
    compare (PasswordHash u) (auth.lr_Password req) = false →
    refused compare w req.

(** The subject of a token is gone from the store, or is there but
    inactive. *)
Definition revoked (w : World) (id : string) : Prop :=
  users (store w) !! id = None ∨
  ∃ u, stored_record w id = Some u ∧ IsActive u = false.

(** The claims [generateToken] builds for [u] when the clock has been
    read [n] times, the token it returns, and the state it leaves. *)
Definition issued_claims (clock : nat → time.Time) (cfg : config.Config)
           (n : nat) (u : User) : auth.JWTClaims :=
  {| auth.UserID := ID u;
     auth.Email := Email u;
     auth.Username := Username u;
     auth.Registered :=
       {| jwt.ExpiresAt :=
            Some (jwt.NewNumericDate
                    (time.Add (clock n) (config.TokenDuration (config.Auth cfg))));
          jwt.IssuedAt := Some (jwt.NewNumericDate (clock (S n)));
          jwt.NotBefore := Some (jwt.NewNumericDate (clock (S (S n))));
          jwt.Issuer := "login-app";
          jwt.Subject := ID u |} |}.

(** A token string that carries [claims] and their MAC under the
    configured secret. *)
Definition signed
    (HMAC : jwt.SigningMethod → string → jwt.SigningMethod * auth.JWTClaims → string)
    (cfg : config.Config) (alg : jwt.SigningMethod) (claims : auth.JWTClaims)
  : auth.TokenString :=
  jwt.Compact alg claims
    (HMAC alg (config.JWTSecret (config.Auth cfg)) (alg, claims)).

(** The state after [k] more readings of the clock. *)
Definition later (k : nat) (w : World) : World :=
  {| heap := heap w; store := store w; ticks := k + ticks w; draws := draws w |}.

(** ** Sample data *)

Module sample.

(** A clock that advances two seconds between consecutive readings. *)
Definition clock (n : nat) : time.Time :=
  (63000000000 * 1000000000 + 2000000000 * Z.of_nat n)%Z.

Definition HMAC (m : jwt.SigningMethod) (key : string)
           (input : jwt.SigningMethod * auth.JWTClaims) : string :=
  key +:+ "." +:+ auth.UserID (snd input).

Definition GenerateFromPassword (password : string) (cost : Z) (n : nat)
  : option string := Some ("$2a$" +:+ password).

Definition CompareHashAndPassword (hashed password : string) : bool :=
  bool_decide (hashed = "$2a$" +:+ password).

Definition Read (k n : nat) : option (list Byte.byte) :=
  Some (replicate k Byte.x2a).

(** A day-long and a one-second token lifetime. *)
Definition cfg : config.Config :=
  {| config.Auth := {| config.JWTSecret := "secret";
                       config.TokenDuration := (24 * time.Hour)%Z;
                       config.BCryptCost := 10%Z;
                       config.SessionTimeout := (24 * time.Hour)%Z |} |}.

Definition cfg_short : config.Config :=
  {| config.Auth := {| config.JWTSecret := "secret";
                       config.TokenDuration := time.Second;
                       config.BCryptCost := 10%Z;
                       config.SessionTimeout := (24 * time.Hour)%Z |} |}.

Definition alice : User :=
  mkUser "u1" "a@x.com" "alice" "$2a$secret1" "A" "A" 5%Z 7%Z false.
Definition bob : User :=
  mkUser "u2" "b@x.com" "bob" "$2a$secret2" "B" "B" 0%Z 0%Z false.

(** What a caller passes to rename alice: a new email that is free and
    a username that is bob's. *)
Definition alice_renamed : User :=
  mkUser "u1" "c@x.com" "bob" "$2a$secret1" "A" "A" 5%Z 7%Z true.

(** What a caller passes to touch alice's record, with a creation time
    of its own. *)
Definition alice_touched : User :=
  mkUser "u1" "a@x.com" "alice" "$2a$secret1" "A" "A" 5%Z 7%Z true.

(** The callers' records, and an empty store. *)
Definition w0 : World :=
  {| heap := {[ 1%positive := alice; 2%positive := bob;
                3%positive := alice_renamed; 4%positive := alice_touched ]};
     store := NewMemoryUserStore; ticks := 0; draws := 0 |}.

(** The state after alice and bob have been created. *)
Definition w2 : World :=
  after_create clock (after_create clock w0 alice) bob.

(** The state after alice has then been updated with the caller's
    first record, whose active flag is off. *)
Definition w_off : World :=
  match UpdateUser clock 1%positive w2 with
  | Done _ w => w
  | Panic => w2
  end.

(** The state after the rename of alice has been attempted in [w2]. *)
Definition w_failed : World :=
  match UpdateUser clock 3%positive w2 with
  | Done _ w => w
  | Panic => w2
  end.

(** The state after alice has then been deleted. *)
Definition w_bad : World :=
  match DeleteUser "u1" w_failed with
  | Done _ w => w
  | Panic => w_failed
  end.

Definition register_alice : auth.RegisterRequest :=
  auth.mkRegisterRequest "a@x.com" "alice" "secret1" "A" "A".

(** A process that has just started: nothing allocated, an empty store. *)
Definition w_start : World :=
  {| heap := ∅; store := NewMemoryUserStore; ticks := 0; draws := 0 |}.

End sample.

(** ** More of the identity store *)

(** The loop body of [ListUsers], over the pointers in the order the
    [range] statement visits them: each record is copied into a fresh
    object, and the copies are appended in that order. *)
Fixpoint copy_all (ps : list loc) : M (list loc) :=
  match ps with
  | [] => ret []
  | user :: rest =>
    let! userCopy := load (Some user) in
    let! p := alloc userCopy in
    let! ps' := copy_all rest in
    ret (p :: ps')
  end.

(** [func (s *MemoryUserStore) ListUsers()].  Go leaves the order in
    which [range] visits a map unspecified: [range_order] is the order
    the run time picks for a given map. *)
Definition ListUsers (range_order : gmap string loc → list loc)
  : M (result storage.error (list loc)) :=
  let! s := get_store in
  let! users := copy_all (range_order (users s)) in
  ret (Ok users).

(** [range_order] visits every entry of a map once. *)
Definition visits_each_once (range_order : gmap string loc → list loc) : Prop :=
  ∀ m, range_order m ≡ₚ (map_to_list m).*2.

(** The three maps tell one story: an index entry points to a record
    that carries the indexed value, a record is indexed under its own
    email and username and stored under its own identifier, and every
    pointer of the record map is allocated. *)
Definition consistent (w : World) : Prop :=
  (∀ e id, emailIdx (store w) !! e = Some id →
           ∃ u, stored_record w id = Some u ∧ Email u = e) ∧
  (∀ n id, usernameIdx (store w) !! n = Some id →
           ∃ u, stored_record w id = Some u ∧ Username u = n) ∧
  (∀ id u, stored_record w id = Some u →
           ID u = id ∧ emailIdx (store w) !! Email u = Some id ∧
           usernameIdx (store w) !! Username u = Some id) ∧
  (∀ id l, users (store w) !! id = Some l → is_Some (heap w !! l)).

(** The state after a successful [UpdateUser] with the record [u], when
    [existing] is the record stored under its identifier. *)
Definition after_update (clock : nat → time.Time) (w : World)
           (u existing : User) : World :=
  {| heap := <[new_loc w := with_UpdatedAt (clock (ticks w)) u]> (heap w);
     store :=
       {| users := <[ID u := new_loc w]> (users (store w));
          emailIdx :=
            if decide (Email u = Email existing) then emailIdx (store w)
            else <[Email u := ID u]>
                   (delete (Email existing) (emailIdx (store w)));
          usernameIdx :=
            if decide (Username u = Username existing)
            then usernameIdx (store w)
            else <[Username u := ID u]>
                   (delete (Username existing) (usernameIdx (store w))) |};
     ticks := S (ticks w);
     draws := draws w |}.

(** The state after a successful [DeleteUser] of the record [u] stored
    under [id]. *)
Definition after_delete (w : World) (id : string) (u : User) : World :=
  {| heap := heap w;
     store := {| users := delete id (users (store w));
                 emailIdx := delete (Email u) (emailIdx (store w));
                 usernameIdx := delete (Username u) (usernameIdx (store w)) |};
     ticks := ticks w;
     draws := draws w |}.

(** An answer of a write operation after which the three maps can be
    relied on: anything but an [UpdateUser] that failed with
    [ErrUserExists]. *)
Definition clean (o : op) (e : option storage.error) : Prop :=
  match o with
  | Update _ => e ≠ Some ErrUserExists
  | _ => True
  end.

(** More sample data: a caller's record that moves alice to a new email
    and a new username, allocated on top of [sample.w2]. *)
Module sample2.

Definition alice_moved : User :=
  mkUser "u1" "alice@y.org" "alice2" "$2a$secret1" "A" "A" 5%Z 7%Z true.

Definition w2 : World := extend alice_moved sample.w2.

Definition range_order (m : gmap string loc) : list loc := (map_to_list m).*2.

End sample2.

(** Sample data for a rename that fails half way and for a clock that
    does not fall on whole seconds. *)
Module sample3.

(** What a caller passes to rename bob: a new email that is free and a
    username that is alice's. *)
Definition bob_renamed : User :=
  mkUser "u2" "d@x.com" "alice" "$2a$secret2" "B" "B" 0%Z 0%Z true.

(** A third user, who takes the email bob had. *)
Definition carol : User :=
  mkUser "u3" "b@x.com" "carol" "$2a$secret3" "C" "C" 0%Z 0%Z false.

(** The callers' records of [sample.w0] and these two, and an empty
    store. *)
Definition w0 : World :=
  {| heap := <[6%positive := carol]> (<[5%positive := bob_renamed]> (heap sample.w0));
     store := NewMemoryUserStore; ticks := 0; draws := 0 |}.

(** Alice and bob are created, the rename of bob is attempted, carol is
    created, bob is deleted. *)
Definition calls : list op :=
  [Create 1%positive; Create 2%positive; Update 5%positive;
   Create 6%positive; Delete "u2"].

Definition w_lost : World :=
  match run_ops sample.clock calls w0 with
  | Done _ w => w
  | Panic => w0
  end.

(** The record the store holds for carol: created at the fifth and
    sixth clock readings. *)
Definition carol_stored : User :=
  mkUser "u3" "b@x.com" "carol" "$2a$secret3" "C" "C"
         (sample.clock 4) (sample.clock 5) true.

(** A clock that starts 450 ms after a whole second and advances 240 ms
    between consecutive readings. *)
Definition clock (n : nat) : time.Time :=
  (63000000000 * 1000000000 + 450000000 + 240000000 * Z.of_nat n)%Z.



(** The token [generateToken] then issues for her with a lifetime of one
    second, the expiry instant it returns, and the state it leaves. *)
Definition token : auth.TokenString :=
  signed sample.HMAC sample.cfg_short jwt.HS256
         (issued_claims clock sample.cfg_short 2 sample.alice).

Definition expiresAt : time.Time := time.Add (clock 2) time.Second.


End sample3.

(** ** More vocabulary for the auth service *)

(** A token string the service did not issue: it does not parse, or it
    names a signing method outside the HMAC family, or its signature is
    not the MAC of its contents under the configured secret. *)
Definition foreign
    (HMAC : jwt.SigningMethod → string → jwt.SigningMethod * auth.JWTClaims → string)
    (cfg : config.Config) (tok : auth.TokenString) : Prop :=
  match tok with
  | jwt.Unparsable _ => True
  | jwt.Compact alg claims sig =>
    jwt.is_SigningMethodHMAC alg = false ∨
    sig ≠ HMAC alg (config.JWTSecret (config.Auth cfg)) (alg, claims)
  end.

(** The record [Register] builds for a request, given the hash and the
    random bytes it obtained. *)
Definition new_record (req : auth.RegisterRequest) (hashedPassword : string)
           (bytes : list Byte.byte) : User :=
  {| ID := auth.EncodeToString bytes;
     Email := auth.rr_Email req;
     Username := auth.rr_Username req;
     PasswordHash := hashedPassword;
     FirstName := auth.rr_FirstName req;
     LastName := auth.rr_LastName req;
     CreatedAt := time.zero;
     UpdatedAt := time.zero;
     IsActive := false |}.

(** The state after two draws of randomness. *)
Definition drawn (k : nat) (w : World) : World :=
  {| heap := heap w; store := store w; ticks := ticks w; draws := k + draws w |}.

(** What [Login] answers for the record [u] when the clock has been read
    [n] times. *)
Definition login_response
    (clock : nat → time.Time)
    (HMAC : jwt.SigningMethod → string → jwt.SigningMethod * auth.JWTClaims → string)
    (cfg : config.Config) (n : nat) (u : User) : auth.LoginResponse :=
  {| auth.Token := signed HMAC cfg jwt.HS256 (issued_claims clock cfg n u);
     auth.User := auth.userToUserInfo u;
     auth.ExpiresAt :=
       time.Add (clock n) (config.TokenDuration (config.Auth cfg)) |}.

(** ** Loading the configuration ([login-app/internal/config], [main.go])

    [config.Config] above is the part of the configuration the service
    reads; this module has the whole record and the code that fills it.
    The process environment is a finite map, and an unset variable reads
    as the empty string; [strconv.Atoi] is a parameter, [None] standing
    for its error. *)

Module loader.

Record ServerConfig : Type := mkServerConfig {
  Port : string;
  ReadTimeout : time.Duration;
  WriteTimeout : time.Duration;
  IdleTimeout : time.Duration
}.

Record LogConfig : Type := mkLogConfig {
  Level : string;
  Format : string
}.

Record Config : Type := mkConfig {
  Server : ServerConfig;
  Auth : config.AuthConfig;
  Log : LogConfig
}.

(** Assignments to fields of [cfg]. *)
Definition with_BCryptCost (c : Z) (cfg : Config) : Config :=
  {| Server := Server cfg;
     Auth := {| config.JWTSecret := config.JWTSecret (Auth cfg);
                config.TokenDuration := config.TokenDuration (Auth cfg);
                config.BCryptCost := c;
                config.SessionTimeout := config.SessionTimeout (Auth cfg) |};
     Log := Log cfg |}.

Definition with_Level (l : string) (cfg : Config) : Config :=
  {| Server := Server cfg; Auth := Auth cfg;
     Log := {| Level := l; Format := Format (Log cfg) |} |}.

Definition with_Port (p : string) (cfg : Config) : Config :=
  {| Server := {| Port := p; ReadTimeout := ReadTimeout (Server cfg);
                  WriteTimeout := WriteTimeout (Server cfg);
                  IdleTimeout := IdleTimeout (Server cfg) |};
     Auth := Auth cfg; Log := Log cfg |}.

(** The secret [Load] falls back to. *)
Definition placeholder : string :=
  "your-256-bit-secret-key-here-make-sure-its-long-enough".

Section Env.

Variable env : gmap string string.
Variable Atoi : string → option Z.

(** [os.Getenv] *)
Definition Getenv (key : string) : string := default EmptyString (env !! key).

(** [getEnv] gets an environment variable with a default value. *)
Definition getEnv (key defaultValue : string) : string :=
  let value := Getenv key in
  if decide (value ≠ EmptyString) then value else defaultValue.

(** [getBcryptCost] gets the bcrypt cost from the environment or returns
    the default. *)
Definition getBcryptCost : Z :=
  let cost := Getenv "BCRYPT_COST" in
  if decide (cost ≠ EmptyString) then
    match Atoi cost with
    | Some c => if (4 <=? c)%Z && (c <=? 31)%Z then c else 10%Z
    | None => 10%Z
    end
  else 10%Z.

(** [Load] loads the configuration for an environment; the error is its
    message. *)
Definition Load (environment : string) : result string Config :=
  let cfg :=
    {| Server := {| Port := getEnv "PORT" "8080";
                    ReadTimeout := (15 * time.Second)%Z;
                    WriteTimeout := (15 * time.Second)%Z;
                    IdleTimeout := (60 * time.Second)%Z |};
       Auth := {| config.JWTSecret := getEnv "JWT_SECRET" placeholder;
                  config.TokenDuration := (24 * time.Hour)%Z;
                  config.BCryptCost := getBcryptCost;
                  config.SessionTimeout := (24 * time.Hour)%Z |};
       Log := {| Level := getEnv "LOG_LEVEL" "info";
                 Format := getEnv "LOG_FORMAT" "text" |} |} in
  if decide (environment = "production") then
    let cfg := with_Level "warn" (with_BCryptCost 12 cfg) in
    if decide (config.JWTSecret (Auth cfg) = placeholder)
    then Err "JWT_SECRET must be set in production environment"
    else Ok cfg
  else if decide (environment = "development") then
    Ok (with_Level "debug" (with_BCryptCost 8 cfg))
  else Ok cfg.

(** [main] without [-version], from loading the configuration to the
    address the HTTP server is given: the [-env] and [-port] flags are
    its inputs, a failure to load ends the process. *)
Definition main_Addr (flagEnv flagPort : string) : result string string :=
  match Load flagEnv with
  | Err err => Err err
  | Ok cfg =>
    let cfg := if decide (flagPort ≠ "8080") then with_Port flagPort cfg
               else cfg in
    Ok (":" +:+ Port (Server cfg))
  end.

End Env.

End loader.

(** ** The HTTP handlers of the auth package

    A handler writes one JSON response and returns; the middleware
    either writes a response and aborts the chain or stores the user in
    the context and calls the next handler.  What gin does is outside:
    the outcome of [ShouldBindJSON] (the request, or [None] when binding
    or validation failed), the value of the [Authorization] header and
    the value of the context key [user_id] are inputs. *)

Module handler.

Definition StatusOK : Z := 200.
Definition StatusCreated : Z := 201.
Definition StatusBadRequest : Z := 400.
Definition StatusUnauthorized : Z := 401.
Definition StatusNotFound : Z := 404.
Definition StatusConflict : Z := 409.
Definition StatusInternalServerError : Z := 500.

(** [ErrorResponse] *)
Record ErrorResponse : Type := mkErrorResponse {
  Error : string;
  Message : string;
  Code : Z
}.

(** The [Data] of a [SuccessResponse]. *)
Inductive Data : Type :=
| NoData
| OfLogin (response : auth.LoginResponse)
| OfProfile (profile : auth.UserInfo).

(** [c.JSON(status, body)] with an [ErrorResponse] or with a
    [SuccessResponse] (whose [Success] is always [true]). *)
Inductive Response : Type :=
| Failed (status : Z) (body : ErrorResponse)
| Succeeded (status : Z) (message : string) (data : Data).

(** How the middleware leaves the chain. *)
Inductive Chain : Type :=
| Abort (response : Response)
| Next (user_info : auth.UserInfo).

(** [strings.Split(s, sep)] for a separator of one byte. *)
Fixpoint Split (s : string) (sep : ascii) : list string :=
  match s with
  | EmptyString => [EmptyString]
  | String c rest =>
    if decide (c = sep) then EmptyString :: Split rest sep
    else match Split rest sep with
         | part :: parts => String c part :: parts
         | [] => [String c EmptyString]
         end
  end.

Section Handler.

Variable clock : nat → time.Time.
Variable HMAC : jwt.SigningMethod → string → jwt.SigningMethod * auth.JWTClaims → string.
Variable bcrypt_GenerateFromPassword : string → Z → nat → option string.
Variable bcrypt_CompareHashAndPassword : string → string → bool.
Variable rand_Read : nat → nat → option (list Byte.byte).
Variable cfg : config.Config.

(** What the characters of a token string parse to. *)
Variable decode : string → auth.TokenString.

(** [func (h *Handler) Register(c *gin.Context)] *)
Definition Register (bound : option auth.RegisterRequest) : M Response :=
  match bound with
  | None =>
    ret (Failed StatusBadRequest
           (mkErrorResponse "validation_error" "Invalid request data"
                            StatusBadRequest))
  | Some req =>
    let! answer :=
      auth.Register clock HMAC bcrypt_GenerateFromPassword rand_Read cfg req in
    match answer with
    | Err err =>
      let '(status, message) :=
        match err with
        | auth.ErrUserExists => (StatusConflict, "User already exists")
        | auth.ErrInvalidCredentials => (StatusBadRequest, "Invalid credentials")
        | _ => (StatusInternalServerError, "Registration failed")
        end in
      ret (Failed status (mkErrorResponse "registration_error" message status))
    | Ok response =>
      ret (Succeeded StatusCreated "User registered successfully"
                     (OfLogin response))
    end
  end.

(** [func (h *Handler) Login(c *gin.Context)] *)
Definition Login (bound : option auth.LoginRequest) : M Response :=
  match bound with
  | None =>
    ret (Failed StatusBadRequest
           (mkErrorResponse "validation_error" "Invalid request data"
                            StatusBadRequest))
  | Some req =>
    let! answer :=
      auth.Login clock HMAC bcrypt_CompareHashAndPassword cfg req in
    match answer with
    | Err err =>
      let '(status, message) :=
        match err with
        | auth.ErrInvalidCredentials =>
          (StatusUnauthorized, "Invalid email or password")
        | auth.ErrUserNotFound =>
          (StatusUnauthorized, "Invalid email or password")
        | _ => (StatusInternalServerError, "Login failed")
        end in
      ret (Failed status (mkErrorResponse "login_error" message status))
    | Ok response =>
      ret (Succeeded StatusOK "Login successful" (OfLogin response))
    end
  end.

(** [func (h *Handler) Logout(c *gin.Context)] *)
Definition Logout : M Response :=
  ret (Succeeded StatusOK "Logout successful" NoData).

(** [func (h *Handler) Profile(c *gin.Context)]; [userID] is
    [c.GetString("user_id")], empty when the key is not set. *)
Definition Profile (userID : string) : M Response :=
  if decide (userID = EmptyString) then
    ret (Failed StatusUnauthorized
           (mkErrorResponse "unauthorized" "User not authenticated"
                            StatusUnauthorized))
  else
    let! answer := auth.GetUserProfile userID in
    match answer with
    | Err err =>
      let '(status, message) :=
        match err with
        | auth.ErrUserNotFound => (StatusNotFound, "User not found")
        | _ => (StatusInternalServerError, "Failed to get user profile")
        end in
      ret (Failed status (mkErrorResponse "profile_error" message status))
    | Ok profile =>
      ret (Succeeded StatusOK "Profile retrieved successfully"
                     (OfProfile profile))
    end.

(** [func (h *Handler) Middleware() gin.HandlerFunc], the function it
    returns; [authHeader] is [c.GetHeader("Authorization")]. *)
Definition Middleware (authHeader : string) : M Chain :=
  if decide (authHeader = EmptyString) then
    ret (Abort (Failed StatusUnauthorized
                  (mkErrorResponse "unauthorized" "Authorization header required"
                                   StatusUnauthorized)))
  else
    match Split authHeader " " with
    | [bearer; token] =>
      if decide (bearer ≠ "Bearer") then
        ret (Abort (Failed StatusUnauthorized
                      (mkErrorResponse "unauthorized"
                         "Invalid authorization header format"
                         StatusUnauthorized)))
      else
        let! answer := auth.ValidateToken clock HMAC cfg (decode token) in
        match answer with
        | Err err =>
          let status := StatusUnauthorized in
          let message :=
            match err with
            | auth.ErrTokenExpired => "Token expired"
            | auth.ErrInvalidToken => "Invalid token"
            | _ => "Invalid token"
            end in
          ret (Abort (Failed status
                        (mkErrorResponse "unauthorized" message status)))
        | Ok userInfo => ret (Next userInfo)
        end
    | _ =>
      ret (Abort (Failed StatusUnauthorized
                    (mkErrorResponse "unauthorized"
                       "Invalid authorization header format"
                       StatusUnauthorized)))
    end.

End Handler.

End handler.

(** ** More vocabulary for the handlers *)

(** The byte [c] occurs in [s]. *)
Fixpoint occurs (c : ascii) (s : string) : bool :=
  match s with
  | EmptyString => false
  | String c' rest => bool_decide (c' = c) || occurs c rest
  end.

(** A header of the form the middleware accepts: the word [Bearer], one
    space, and a token without a space. *)
Definition bearer_header (authHeader token : string) : Prop :=
  authHeader = "Bearer " +:+ token ∧ occurs " " token = false.

(** The body of every refusal of the middleware. *)
Definition unauthorized (message : string) : handler.Response :=
  handler.Failed handler.StatusUnauthorized
    (handler.mkErrorResponse "unauthorized" message handler.StatusUnauthorized).

(** The message the middleware sends for an error of [ValidateToken]. *)
Definition token_message (err : auth.error) : string :=
  match err with
  | auth.ErrTokenExpired => "Token expired"
  | _ => "Invalid token"
  end.

(** ** Properties of the identity store *)

Ltac go_unfold :=
  unfold set_users, set_emailIdx, set_usernameIdx;
  unfold bind, ret, load, alloc, get_store, put_store, Now, panic.

Lemma new_loc_fresh (w : World) : heap w !! new_loc w = None.
Proof. apply not_elem_of_dom. unfold new_loc. apply is_fresh. Qed.

Lemma new_loc_ne (w : World) (l : loc) (u : User) :
  heap w !! l = Some u → new_loc w ≠ l.
Proof. intros Hl <-. rewrite new_loc_fresh in Hl. discriminate. Qed.

Lemma CreateUser_taken clock w p u :
  heap w !! p = Some u → taken (store w) u →
  CreateUser clock p w = Done (Some ErrUserExists) w.
Proof.
  intros Hp Ht. unfold CreateUser. go_unfold. rewrite Hp.
  destruct (users (store w) !! ID u) as [?|] eqn:E1; [done|].
  destruct (emailIdx (store w) !! Email u) as [?|] eqn:E2; [done|].
  destruct (usernameIdx (store w) !! Username u) as [?|] eqn:E3; [done|].
  destruct Ht as [[? H]|[[? H]|[? H]]]; congruence.
Qed.

Lemma CreateUser_fresh clock w p u :
  heap w !! p = Some u → ¬ taken (store w) u →
  CreateUser clock p w = Done None (after_create clock w u).
Proof.
  intros Hp Ht. unfold CreateUser. go_unfold. rewrite Hp.
  destruct (users (store w) !! ID u) as [?|] eqn:E1.
  { exfalso. apply Ht. left. eauto. }
  destruct (emailIdx (store w) !! Email u) as [?|] eqn:E2.
  { exfalso. apply Ht. right; left. eauto. }
  destruct (usernameIdx (store w) !! Username u) as [?|] eqn:E3.
  { exfalso. apply Ht. right; right. eauto. }
  reflexivity.
Qed.

Lemma CreateUser_success_inv clock w p u w1 :
  heap w !! p = Some u → CreateUser clock p w = Done None w1 →
  ¬ taken (store w) u ∧ w1 = after_create clock w u.
Proof.
  intros Hp Hc. destruct (decide (taken (store w) u)) as [Ht|Ht].
  - rewrite (CreateUser_taken _ _ _ _ Hp Ht) in Hc. discriminate.
  - rewrite (CreateUser_fresh _ _ _ _ Hp Ht) in Hc. by inversion Hc.
Qed.

(** C4.  [CreateUser] of a record one of whose three keys is present
    fails with [ErrUserExists] and leaves the whole state as it was; of a
    record whose three keys are free it succeeds, and the new state holds,
    in a fresh object that is not the caller's, the record with both
    timestamps read from the clock and the active flag set, and both
    index entries. *)
Theorem CreateUser_checks_before_writing clock w p u :
  heap w !! p = Some u →
  (taken (store w) u → CreateUser clock p w = Done (Some ErrUserExists) w) ∧
  (¬ taken (store w) u →
     CreateUser clock p w = Done None (after_create clock w u) ∧
     new_loc w ≠ p ∧ heap w !! new_loc w = None ∧
     stored_record (after_create clock w u) (ID u) = Some (stamped clock w u) ∧
     CreatedAt (stamped clock w u) = clock (ticks w) ∧
     UpdatedAt (stamped clock w u) = clock (S (ticks w)) ∧
     IsActive (stamped clock w u) = true ∧
     emailIdx (store (after_create clock w u)) !! Email u = Some (ID u) ∧
     usernameIdx (store (after_create clock w u)) !! Username u = Some (ID u)).
Proof.
  intros Hp. split; intros Ht.
  - exact (CreateUser_taken clock w p u Hp Ht).
  - split; [by apply CreateUser_fresh|].
    split; [exact (new_loc_ne w p u Hp)|].
    split; [apply new_loc_fresh|].
    unfold stored_record, after_create; simpl.
    rewrite !lookup_insert_eq. done.
Qed.

Lemma CreateUser_checks_before_writing_witness :
  CreateUser sample.clock 1%positive sample.w0
    = Done None (after_create sample.clock sample.w0 sample.alice) ∧
  CreateUser sample.clock 1%positive sample.w2
    = Done (Some ErrUserExists) sample.w2.
Proof.
  split.
  - apply (CreateUser_checks_before_writing sample.clock sample.w0 1%positive
             sample.alice); [reflexivity|].
    intros [[? H]|[[? H]|[? H]]]; vm_compute in H; discriminate.
  - apply (CreateUser_checks_before_writing sample.clock sample.w2 1%positive
             sample.alice); [reflexivity|].
    left. exists 5%positive. reflexivity.
Defined.

Lemma GetUserByID_found w id l u :
  users (store w) !! id = Some l → heap w !! l = Some u →
  GetUserByID id w = Done (Ok (new_loc w)) (extend u w).
Proof.
  intros Hl Hu. unfold GetUserByID. go_unfold. by rewrite Hl, Hu.
Qed.

Lemma GetUserByID_missing w id :
  users (store w) !! id = None →
  GetUserByID id w = Done (Err ErrUserNotFound) w.
Proof. intros Hl. unfold GetUserByID. go_unfold. by rewrite Hl. Qed.

Lemma GetUserByEmail_found w email id l u :
  emailIdx (store w) !! email = Some id →
  users (store w) !! id = Some l → heap w !! l = Some u →
  GetUserByEmail email w = Done (Ok (new_loc w)) (extend u w).
Proof.
  intros He Hl Hu. unfold GetUserByEmail. go_unfold. by rewrite He, Hl, Hu.
Qed.

Lemma GetUserByEmail_missing w email :
  emailIdx (store w) !! email = None →
  GetUserByEmail email w = Done (Err ErrUserNotFound) w.
Proof. intros He. unfold GetUserByEmail. go_unfold. by rewrite He. Qed.

Lemma GetUserByUsername_found w username id l u :
  usernameIdx (store w) !! username = Some id →
  users (store w) !! id = Some l → heap w !! l = Some u →
  GetUserByUsername username w = Done (Ok (new_loc w)) (extend u w).
Proof.
  intros He Hl Hu. unfold GetUserByUsername. go_unfold. by rewrite He, Hl, Hu.
Qed.

Lemma GetUserByUsername_missing w username :
  usernameIdx (store w) !! username = None →
  GetUserByUsername username w = Done (Err ErrUserNotFound) w.
Proof. intros He. unfold GetUserByUsername. go_unfold. by rewrite He. Qed.

Lemma kept_refl id w : kept id w w.
Proof. by split. Qed.

(** Writing through a pointer a lookup returned does not touch the
    object the store holds. *)
Lemma kept_poke_copy id w1 w' l u v x :
  users (store w1) !! id = Some l → heap w1 !! l = Some u →
  kept id w1 w' → kept id w1 (poke (new_loc w') v (extend x w')).
Proof.
  intros Hl Hu [Hs Hh]. split; [done|].
  intros l' Hl'. assert (l' = l) as -> by congruence.
  specialize (Hh l Hl). rewrite Hu in Hh.
  unfold poke, extend; simpl.
  rewrite !lookup_insert_ne by exact (new_loc_ne w' l u Hh).
  by rewrite Hh, Hu.
Qed.

(** Right after a successful [CreateUser] of [u], and in every state in
    which the store and the object it holds for [u] are as [CreateUser]
    left them, the lookups by identifier, by email and by username all
    succeed and return a fresh object carrying the same record, the one
    [CreateUser] stored; and whatever a caller then writes through the
    returned pointer leads to a state of which the same holds. *)
Lemma lookups_agree_and_return_copies clock w p u w1 :
  heap w !! p = Some u →
  CreateUser clock p w = Done None w1 →
  ∀ w', kept (ID u) w1 w' →
    GetUserByID (ID u) w'
      = Done (Ok (new_loc w')) (extend (stamped clock w u) w') ∧
    GetUserByEmail (Email u) w'
      = Done (Ok (new_loc w')) (extend (stamped clock w u) w') ∧
    GetUserByUsername (Username u) w'
      = Done (Ok (new_loc w')) (extend (stamped clock w u) w') ∧
    heap w' !! new_loc w' = None ∧
    users (store w') !! ID u ≠ Some (new_loc w') ∧
    ∀ v, kept (ID u) w1 (poke (new_loc w') v (extend (stamped clock w u) w')).
Proof.
  intros Hp Hc w' Hk.
  destruct (CreateUser_success_inv _ _ _ _ _ Hp Hc) as [_ ->].
  assert (Hu : users (store (after_create clock w u)) !! ID u = Some (new_loc w))
    by apply lookup_insert_eq.
  assert (Hr : heap (after_create clock w u) !! new_loc w = Some (stamped clock w u))
    by apply lookup_insert_eq.
  pose proof Hk as [Hs Hh]. specialize (Hh _ Hu). rewrite Hr in Hh.
  assert (He : emailIdx (store w') !! Email u = Some (ID u))
    by (rewrite Hs; apply lookup_insert_eq).
  assert (Hn : usernameIdx (store w') !! Username u = Some (ID u))
    by (rewrite Hs; apply lookup_insert_eq).
  rewrite <- Hs in Hu.
  split_and!.
  - by apply GetUserByID_found with (new_loc w).
  - by apply GetUserByEmail_found with (ID u) (new_loc w).
  - by apply GetUserByUsername_found with (ID u) (new_loc w).
  - apply new_loc_fresh.
  - rewrite Hu. intros [= E]. by apply (new_loc_ne w' _ _ Hh).
  - intros v. rewrite Hs in Hu. by apply kept_poke_copy with (new_loc w) (stamped clock w u).
Qed.

Lemma lookups_agree_and_return_copies_witness :
  let w1 := after_create sample.clock sample.w0 sample.alice in
  let r := stamped sample.clock sample.w0 sample.alice in
  GetUserByID "u1" w1 = Done (Ok (new_loc w1)) (extend r w1) ∧
  GetUserByEmail "a@x.com" w1 = Done (Ok (new_loc w1)) (extend r w1) ∧
  GetUserByUsername "alice" w1 = Done (Ok (new_loc w1)) (extend r w1) ∧
  heap w1 !! new_loc w1 = None ∧
  users (store w1) !! "u1" ≠ Some (new_loc w1) ∧
  ∀ v, kept "u1" w1 (poke (new_loc w1) v (extend r w1)).
Proof.
  intros w1 r.
  apply (lookups_agree_and_return_copies sample.clock sample.w0 1%positive
           sample.alice w1).
  - reflexivity.
  - vm_compute. reflexivity.
  - apply kept_refl.
Defined.

(** The failures of [UpdateUser] that happen before the first write
    leave the state as it was. *)
Lemma UpdateUser_not_found clock w p u :
  heap w !! p = Some u → users (store w) !! ID u = None →
  UpdateUser clock p w = Done (Some ErrUserNotFound) w.
Proof.
  intros Hp Hu. unfold UpdateUser. go_unfold. by rewrite Hp, Hu.
Qed.

Lemma UpdateUser_email_taken clock w p u l existing :
  heap w !! p = Some u →
  users (store w) !! ID u = Some l → heap w !! l = Some existing →
  Email u ≠ Email existing → is_Some (emailIdx (store w) !! Email u) →
  UpdateUser clock p w = Done (Some ErrUserExists) w.
Proof.
  intros Hp Hl He Hne [x Hx]. unfold UpdateUser. go_unfold.
  rewrite Hp, Hl, He. destruct (decide (Email u = Email existing)); [done|].
  by rewrite Hx.
Qed.

Lemma UpdateUser_username_taken_same_email clock w p u l existing :
  heap w !! p = Some u →
  users (store w) !! ID u = Some l → heap w !! l = Some existing →
  Email u = Email existing →
  Username u ≠ Username existing →
  is_Some (usernameIdx (store w) !! Username u) →
  UpdateUser clock p w = Done (Some ErrUserExists) w.
Proof.
  intros Hp Hl He Heq Hne [x Hx]. unfold UpdateUser. go_unfold.
  rewrite Hp, Hl, He. destruct (decide (Email u = Email existing)); [|done].
  destruct (decide (Username u = Username existing)); [done|].
  by rewrite Hx.
Qed.

(** What a successful [UpdateUser] stores: the caller's record with the
    update time read from the clock. *)
Lemma UpdateUser_success_stores clock w p u w' :
  heap w !! p = Some u → UpdateUser clock p w = Done None w' →
  stored_record w' (ID u) = Some (with_UpdatedAt (clock (ticks w)) u).
Proof.
  intros Hp. unfold UpdateUser. go_unfold. rewrite Hp.
  destruct (users (store w) !! ID u) as [l|]; [|done].
  destruct (heap w !! l) as [existing|]; [|done].
  repeat (case_match; simpl; try done).
  all: intros [= <-]; simplify_eq; unfold stored_record, extend, new_loc; simpl.
  all: by rewrite !lookup_insert_eq.
Qed.

(** C9 fails on the code: alice was created at the first clock reading,
    which [CreateUser] wrote over what the caller had passed; an
    [UpdateUser] with a record that carries another creation time
    succeeds, and the stored creation time is then the caller's. *)
Lemma UpdateUser_stores_callers_CreatedAt :
  ∃ w', UpdateUser sample.clock 4%positive sample.w2 = Done None w' ∧
        CreatedAt <$> stored_record sample.w2 "u1" = Some (sample.clock 0) ∧
        CreatedAt <$> stored_record w' "u1" = Some 5%Z ∧
        sample.clock 0 ≠ 5%Z.
Proof.
  eexists. split; [vm_compute; reflexivity|].
  split; [vm_compute; reflexivity|].
  split; [vm_compute; reflexivity|]. discriminate.
Qed.

(** C1 fails on the code: with alice and bob in the store, an update of
    alice to a free email and to bob's username fails with
    [ErrUserExists] after the email index has been retargeted; the
    record and the username index are as before. *)
Lemma UpdateUser_failure_after_email_retarget :
  UpdateUser sample.clock 3%positive sample.w2
    = Done (Some ErrUserExists) sample.w_failed ∧
  emailIdx (store sample.w2) !! "a@x.com" = Some "u1" ∧
  emailIdx (store sample.w2) !! "c@x.com" = None ∧
  emailIdx (store sample.w_failed) !! "a@x.com" = None ∧
  emailIdx (store sample.w_failed) !! "c@x.com" = Some "u1" ∧
  stored_record sample.w_failed "u1" = stored_record sample.w2 "u1" ∧
  Email <$> stored_record sample.w_failed "u1" = Some "a@x.com" ∧
  usernameIdx (store sample.w_failed) = usernameIdx (store sample.w2).
Proof. split_and!; vm_compute; reflexivity. Qed.

Lemma dangling_entry_unsound s e id :
  emailIdx s !! e = Some id → users s !! id = None → ¬ index_sound s.
Proof.
  intros He Hu [Hs _]. destruct (Hs e id He) as [l Hl]. congruence.
Qed.

(** C10 fails on the code: after the failed update above, deleting alice
    leaves the entry of the new email pointing to an identifier that is
    no longer a key of the record map, and the lookup by that email
    reads through a nil pointer. *)
Lemma index_dangles_after_failed_update :
  run_ops sample.clock
    [Create 1%positive; Create 2%positive; Update 3%positive; Delete "u1"]
    sample.w0
    = Done [None; None; Some ErrUserExists; None] sample.w_bad ∧
  reachable sample.clock sample.w_bad ∧
  emailIdx (store sample.w_bad) !! "c@x.com" = Some "u1" ∧
  users (store sample.w_bad) !! "u1" = None ∧
  ¬ index_sound (store sample.w_bad) ∧
  GetUserByEmail "c@x.com" sample.w_bad = Panic.
Proof.
  assert (Hrun : run_ops sample.clock
            [Create 1%positive; Create 2%positive; Update 3%positive; Delete "u1"]
            sample.w0
            = Done [None; None; Some ErrUserExists; None] sample.w_bad)
    by (vm_compute; reflexivity).
  assert (He : emailIdx (store sample.w_bad) !! "c@x.com" = Some "u1")
    by (vm_compute; reflexivity).
  assert (Hu : users (store sample.w_bad) !! "u1" = None)
    by (vm_compute; reflexivity).
  split; [exact Hrun|]. split.
  { exists (heap sample.w0), 0, 0. eexists _, _. exact Hrun. }
  split; [exact He|]. split; [exact Hu|]. split.
  - exact (dangling_entry_unsound _ _ _ He Hu).
  - vm_compute; reflexivity.
Qed.

(** C5 fails on the code: carol is created with the email bob had, after
    a rename of bob failed on the username with the email index already
    retargeted; deleting bob then removes the index entry of his stored
    email, which is carol's.  Carol's record has not been modified, the
    lookups by her identifier and her username succeed, and the lookup
    by her email answers [ErrUserNotFound]. *)
Lemma lookup_by_email_lost_after_failed_update :
  run_ops sample.clock sample3.calls sample3.w0
    = Done [None; None; Some ErrUserExists; None; None] sample3.w_lost ∧
  stored_record sample3.w_lost "u3" = Some sample3.carol_stored ∧
  GetUserByID "u3" sample3.w_lost
    = Done (Ok (new_loc sample3.w_lost))
           (extend sample3.carol_stored sample3.w_lost) ∧
  GetUserByUsername "carol" sample3.w_lost
    = Done (Ok (new_loc sample3.w_lost))
           (extend sample3.carol_stored sample3.w_lost) ∧
  GetUserByEmail "b@x.com" sample3.w_lost
    = Done (Err ErrUserNotFound) sample3.w_lost.
Proof. split_and!; vm_compute; reflexivity. Qed.

(** ** Properties of the auth service *)

Lemma load_copy u w : load (Some (new_loc w)) (extend u w) = Done u (extend u w).
Proof. unfold load, extend; simpl. by rewrite lookup_insert_eq. Qed.

Lemma Truncate_le t d : (time.Truncate t d ≤ t)%Z.
Proof.
  unfold time.Truncate. destruct (Z.leb_spec d 0); [lia|].
  pose proof (Z.mod_pos_bound t d). lia.
Qed.

Lemma generateToken_issues clock HMAC cfg p u w :
  heap w !! p = Some u →
  auth.generateToken clock HMAC cfg p w
  = Done (Ok (signed HMAC cfg jwt.HS256 (issued_claims clock cfg (ticks w) u),
              time.Add (clock (ticks w)) (config.TokenDuration (config.Auth cfg))))
         (later 3 w).
Proof.
  intros Hp. unfold auth.generateToken. go_unfold. simpl. by rewrite Hp.
Qed.

Lemma generateToken_never_fails clock HMAC cfg p w e w' :
  auth.generateToken clock HMAC cfg p w ≠ Done (Err e) w'.
Proof.
  unfold auth.generateToken. go_unfold. simpl.
  destruct (heap w !! p); discriminate.
Qed.

Lemma GetUserByEmail_only_not_found email w err w1 :
  GetUserByEmail email w = Done (Err err) w1 → err = ErrUserNotFound.
Proof.
  unfold GetUserByEmail. go_unfold.
  destruct (emailIdx (store w) !! email) as [id|]; [|by intros [= <- _]].
  destruct (users (store w) !! id) as [l|]; [|done].
  by destruct (heap w !! l).
Qed.

Lemma GetUserByID_only_not_found id w err w1 :
  GetUserByID id w = Done (Err err) w1 → err = ErrUserNotFound.
Proof.
  unfold GetUserByID. go_unfold.
  destruct (users (store w) !! id) as [l|]; [|by intros [= <- _]].
  by destruct (heap w !! l).
Qed.

(** C6.  A login that is to be refused, because the email resolves to no
    record, or the record is inactive, or the password does not verify,
    fails with [ErrInvalidCredentials] in each of the three cases; and
    [ErrInvalidCredentials] is the only error [Login] ever returns. *)
Theorem Login_refusals_indistinguishable clock HMAC compare cfg w req :
  (refused compare w req →
     ∃ w', auth.Login clock HMAC compare cfg req w
           = Done (Err auth.ErrInvalidCredentials) w') ∧
  (∀ e w', auth.Login clock HMAC compare cfg req w = Done (Err e) w' →
           e = auth.ErrInvalidCredentials).
Proof.
  split.
  - intros [Hnone | id u Hid Hrec Hact | id u Hid Hrec Hact Hpw].
    + exists w. unfold auth.Login, bind. rewrite GetUserByEmail_missing by done.
      by destruct (decide _).
    + unfold stored_record in Hrec.
      destruct (users (store w) !! id) as [l|] eqn:Hl; [|done].
      exists (extend u w). unfold auth.Login, bind.
      rewrite (GetUserByEmail_found w _ id l u) by done.
      rewrite load_copy. by rewrite Hact.
    + unfold stored_record in Hrec.
      destruct (users (store w) !! id) as [l|] eqn:Hl; [|done].
      exists (extend u w). unfold auth.Login, bind.
      rewrite (GetUserByEmail_found w _ id l u) by done.
      rewrite load_copy. rewrite Hact. simpl.
      unfold auth.verifyPassword. by rewrite Hpw.
  - intros e w'. unfold auth.Login, bind.
    destruct (GetUserByEmail (auth.lr_Email req) w) as [[q|err] w1|] eqn:Hg;
      [| |done].
    + destruct (load (Some q) w1) as [u w2|]; [|done].
      destruct (negb (IsActive u)); [by intros [= <- _]|].
      destruct (negb _); [by intros [= <- _]|].
      destruct (auth.generateToken clock HMAC cfg q w2) as [[[tok ex]|e'] w3|] eqn:Ht.
      * unfold ret. destruct (load (Some q) w3); discriminate.
      * by apply generateToken_never_fails in Ht.
      * done.
    + apply GetUserByEmail_only_not_found in Hg as ->.
      destruct (decide _); [|done]. unfold ret. by intros [= <- _].
Qed.

Lemma Login_refusals_indistinguishable_witness :
  (∃ w', auth.Login sample.clock sample.HMAC sample.CompareHashAndPassword
           sample.cfg (auth.mkLoginRequest "zed@x.com" "secret1") sample.w2
         = Done (Err auth.ErrInvalidCredentials) w') ∧
  (∃ w', auth.Login sample.clock sample.HMAC sample.CompareHashAndPassword
           sample.cfg (auth.mkLoginRequest "a@x.com" "secret1") sample.w_off
         = Done (Err auth.ErrInvalidCredentials) w') ∧
  (∃ w', auth.Login sample.clock sample.HMAC sample.CompareHashAndPassword
           sample.cfg (auth.mkLoginRequest "a@x.com" "wrong") sample.w2
         = Done (Err auth.ErrInvalidCredentials) w').
Proof.
  split_and!.
  - apply (Login_refusals_indistinguishable sample.clock sample.HMAC
             sample.CompareHashAndPassword sample.cfg sample.w2
             (auth.mkLoginRequest "zed@x.com" "secret1")).
    apply refused_unknown. reflexivity.
  - apply (Login_refusals_indistinguishable sample.clock sample.HMAC
             sample.CompareHashAndPassword sample.cfg sample.w_off
             (auth.mkLoginRequest "a@x.com" "secret1")).
    apply refused_inactive with "u1"
      (with_UpdatedAt (sample.clock 4) sample.alice); reflexivity.
  - apply (Login_refusals_indistinguishable sample.clock sample.HMAC
             sample.CompareHashAndPassword sample.cfg sample.w2
             (auth.mkLoginRequest "a@x.com" "wrong")).
    apply refused_password with "u1" (stamped sample.clock sample.w0 sample.alice);
      reflexivity.
Defined.

(** What the parser does with a token whose MAC is the one of its claims
    under the configured secret: it reads the clock once and validates
    the claims against that reading. *)
Lemma ParseWithClaims_signed clock HMAC cfg alg claims w :
  jwt.is_SigningMethodHMAC alg = true →
  jwt.ParseWithClaims auth.JWTClaims auth.Registered HMAC clock
    (signed HMAC cfg alg claims) (auth.keyFunc cfg) w
  = match jwt.Validate auth.JWTClaims auth.Registered claims (clock (ticks w)) with
    | Some e => Done (Err e) (later 1 w)
    | None => Done (Ok {| jwt.Method := alg; jwt.Claims := claims;
                          jwt.Signature :=
                            HMAC alg (config.JWTSecret (config.Auth cfg)) (alg, claims);
                          jwt.Valid := true |}) (later 1 w)
    end.
Proof.
  intros Halg. unfold jwt.ParseWithClaims, signed, auth.keyFunc; simpl.
  rewrite Halg; simpl. rewrite bool_decide_eq_true_2 by done.
  go_unfold. by destruct (jwt.Validate _ _ _ _).
Qed.

(** An expired token never reaches the expiry check of [ValidateToken]:
    the parser has already refused it. *)
Lemma ValidateToken_expired_at_parse clock HMAC cfg alg claims exp w :
  jwt.is_SigningMethodHMAC alg = true →
  jwt.ExpiresAt (auth.Registered claims) = Some exp →
  (exp ≤ clock (ticks w))%Z →
  auth.ValidateToken clock HMAC cfg (signed HMAC cfg alg claims) w
  = Done (Err auth.ErrInvalidToken) (later 1 w).
Proof.
  intros Halg Hexp Hle. unfold auth.ValidateToken, bind.
  rewrite ParseWithClaims_signed by done.
  unfold jwt.Validate, jwt.verifyExpiresAt. rewrite Hexp.
  unfold time.Before. destruct (Z.ltb_spec (clock (ticks w)) exp); [lia|done].
Qed.

(** [ErrTokenExpired] is returned only for a token that expires between
    the clock reading of the parser and the one of the check. *)
Lemma ValidateToken_TokenExpired_only_between clock HMAC cfg alg claims w w' :
  jwt.is_SigningMethodHMAC alg = true →
  auth.ValidateToken clock HMAC cfg (signed HMAC cfg alg claims) w
  = Done (Err auth.ErrTokenExpired) w' →
  ∃ exp, jwt.ExpiresAt (auth.Registered claims) = Some exp ∧
         (clock (ticks w) < exp < clock (S (ticks w)))%Z.
Proof.
  intros Halg. unfold auth.ValidateToken, bind.
  rewrite ParseWithClaims_signed by done.
  unfold jwt.Validate, jwt.verifyExpiresAt.
  destruct (jwt.ExpiresAt (auth.Registered claims)) as [exp|] eqn:Hexp.
  - unfold time.Before at 1.
    destruct (Z.ltb_spec (clock (ticks w)) exp) as [Hlt|]; [|done].
    destruct (jwt.verifyNotBefore _ _ _ _); [done|]. simpl. rewrite Hexp.
    go_unfold. simpl. unfold time.Before.
    destruct (Z.ltb_spec exp (clock (S (ticks w)))) as [Hlt2|].
    + intros _. exists exp. split; [done|lia].
    + destruct (GetUserByID _ _) as [[q|[]] ?|]; try done.
      destruct (heap _ !! q); [|done]. by destruct (negb _).
  - destruct (jwt.verifyNotBefore _ _ _ _); [done|]. simpl. by rewrite Hexp.
Qed.

(** C2 fails on the code: a token issued with a lifetime of one second is
    presented six seconds after it was issued; its expiry lies in the
    past, and the answer is [ErrInvalidToken]. *)
Lemma ValidateToken_expired_token_example :
  ∃ tok expiresAt w1 w',
    auth.generateToken sample.clock sample.HMAC sample.cfg_short 1%positive sample.w0
      = Done (Ok (tok, expiresAt)) w1 ∧
    tok = signed sample.HMAC sample.cfg_short jwt.HS256
            (issued_claims sample.clock sample.cfg_short 0 sample.alice) ∧
    time.Before expiresAt (sample.clock (ticks w1)) = true ∧
    auth.ValidateToken sample.clock sample.HMAC sample.cfg_short tok w1
      = Done (Err auth.ErrInvalidToken) w'.
Proof.
  eexists _, _, _, _. split; [apply generateToken_issues; reflexivity|].
  split; [reflexivity|]. split; [reflexivity|].
  apply ValidateToken_expired_at_parse with
    (exp := (63000000001 * 1000000000)%Z); [reflexivity|reflexivity|].
  vm_compute. discriminate.
Qed.

(** [ValidateToken] on a correctly signed token, step by step: the
    parser reads the clock and validates the claims, the expiry check
    reads the clock again, and the subject is fetched from the store. *)
Lemma ValidateToken_signed clock HMAC cfg alg claims w :
  jwt.is_SigningMethodHMAC alg = true →
  auth.ValidateToken clock HMAC cfg (signed HMAC cfg alg claims) w
  = match jwt.Validate auth.JWTClaims auth.Registered claims (clock (ticks w)) with
    | Some _ => Done (Err auth.ErrInvalidToken) (later 1 w)
    | None =>
      match jwt.ExpiresAt (auth.Registered claims) with
      | None => Panic
      | Some exp =>
        if time.Before exp (clock (S (ticks w)))
        then Done (Err auth.ErrTokenExpired) (later 2 w)
        else
          match GetUserByID (auth.UserID claims) (later 2 w) with
          | Done (Ok user) w2 =>
            match load (Some user) w2 with
            | Done u w3 =>
              if negb (IsActive u) then Done (Err auth.ErrInvalidToken) w3
              else Done (Ok (auth.userToUserInfo u)) w3
            | Panic => Panic
            end
          | Done (Err err) w2 =>
            if decide (err = ErrUserNotFound)
            then Done (Err auth.ErrInvalidToken) w2
            else Done (Err (auth.OfStorage err)) w2
          | Panic => Panic
          end
      end
    end.
Proof.
  intros Halg. unfold auth.ValidateToken, bind at 1.
  rewrite ParseWithClaims_signed by done.
  destruct (jwt.Validate _ _ _ _); [done|].
  cbn [jwt.Valid jwt.Claims negb].
  destruct (jwt.ExpiresAt (auth.Registered claims)) as [exp|]; [|done].
  unfold bind at 1, Now at 1. cbn [ticks later Nat.add].
  destruct (time.Before exp (clock (S (ticks w)))); [done|].
  unfold bind at 1. change (later 2 w) with
    {| heap := heap (later 1 w); store := store (later 1 w);
       ticks := S (S (ticks w)); draws := draws (later 1 w) |}.
  destruct (GetUserByID _ _) as [[user|err] w2|]; [|by destruct (decide _)|done].
  unfold bind. destruct (load (Some user) w2) as [u w3|]; [|done].
  by destruct (negb _).
Qed.

(** C7.  A correctly signed token that has an expiry claim and is
    unexpired at both clock readings of the validation, and whose subject
    is gone from the store or inactive in it, is answered with
    [ErrInvalidToken]: the answer depends on the record the store holds
    under the subject identifier, not on the other claims. *)
Theorem ValidateToken_revoked_subject clock HMAC cfg alg claims exp w :
  jwt.is_SigningMethodHMAC alg = true →
  jwt.ExpiresAt (auth.Registered claims) = Some exp →
  (clock (ticks w) < exp)%Z → (clock (S (ticks w)) ≤ exp)%Z →
  revoked w (auth.UserID claims) →
  ∃ w', auth.ValidateToken clock HMAC cfg (signed HMAC cfg alg claims) w
        = Done (Err auth.ErrInvalidToken) w'.
Proof.
  intros Halg Hexp Hlt Hle Hrev. rewrite ValidateToken_signed by done.
  destruct (jwt.Validate _ _ _ _); [by eexists|]. rewrite Hexp.
  unfold time.Before.
  destruct (Z.ltb_spec exp (clock (S (ticks w)))); [lia|].
  destruct Hrev as [Hgone | (u & Hrec & Hoff)].
  - rewrite GetUserByID_missing by done.
    destruct (decide _); [|done]. by eexists.
  - unfold stored_record in Hrec.
    destruct (users (store w) !! auth.UserID claims) as [l|] eqn:Hl; [|done].
    rewrite (GetUserByID_found _ _ l u) by done.
    rewrite load_copy, Hoff. by eexists.
Qed.

Lemma ValidateToken_revoked_subject_witness :
  ∃ w', auth.ValidateToken sample.clock sample.HMAC sample.cfg
          (signed sample.HMAC sample.cfg jwt.HS256
             (issued_claims sample.clock sample.cfg 0 sample.alice))
          (later 3 sample.w_off)
        = Done (Err auth.ErrInvalidToken) w'.
Proof.
  apply (ValidateToken_revoked_subject sample.clock sample.HMAC sample.cfg
           jwt.HS256 (issued_claims sample.clock sample.cfg 0 sample.alice)
           (63000086400 * 1000000000)%Z (later 3 sample.w_off)).
  - reflexivity.
  - reflexivity.
  - vm_compute. reflexivity.
  - vm_compute. discriminate.
  - right. exists (with_UpdatedAt (sample.clock 4) sample.alice).
    split; reflexivity.
Defined.




Lemma GetUserByEmail_error_state email w err w1 :
  GetUserByEmail email w = Done (Err err) w1 → w1 = w.
Proof.
  unfold GetUserByEmail. go_unfold.
  destruct (emailIdx (store w) !! email) as [id|]; [|by intros [= _ <-]].
  destruct (users (store w) !! id) as [l|]; [|done].
  by destruct (heap w !! l).
Qed.

Lemma GetUserByUsername_error_state username w err w1 :
  GetUserByUsername username w = Done (Err err) w1 → w1 = w.
Proof.
  unfold GetUserByUsername. go_unfold.
  destruct (usernameIdx (store w) !! username) as [id|]; [|by intros [= _ <-]].
  destruct (users (store w) !! id) as [l|]; [|done].
  by destruct (heap w !! l).
Qed.

(** What a successful [Register] returns and leaves in the store: the
    view agrees with the stored record on identifier, email, username
    and names; the view is taken from the record [Register] built, whose
    creation time is the zero time, while the stored copy carries the
    clock reading of [CreateUser]. *)
Lemma Register_view clock HMAC generate read cfg req w resp w' :
  auth.Register clock HMAC generate read cfg req w = Done (Ok resp) w' →
  ∃ r, stored_record w' (auth.ui_ID (auth.User resp)) = Some r ∧
       auth.ui_ID (auth.User resp) = ID r ∧
       auth.ui_Email (auth.User resp) = Email r ∧
       auth.ui_Username (auth.User resp) = Username r ∧
       auth.ui_FirstName (auth.User resp) = FirstName r ∧
       auth.ui_LastName (auth.User resp) = LastName r ∧
       auth.ui_CreatedAt (auth.User resp) = time.zero ∧
       CreatedAt r = clock (ticks w).
Proof.
  unfold auth.Register. unfold bind at 1.
  destruct (GetUserByEmail _ w) as [[?|e1] w1|] eqn:H1; [done| |done].
  apply GetUserByEmail_error_state in H1 as ->. unfold bind at 1.
  destruct (GetUserByUsername _ w) as [[?|e2] w1|] eqn:H2; [done| |done].
  apply GetUserByUsername_error_state in H2 as ->.
  unfold bind at 1, auth.hashPassword, bind at 1, auth.draw.
  destruct (generate _ _ _) as [hashedPassword|]; [|done].
  unfold ret at 1, bind at 1, auth.generateID, bind at 1, auth.draw.
  destruct (read _ _) as [bytes|]; [|done].
  unfold ret at 1, bind at 1, alloc.
  set (rec := {| ID := auth.EncodeToString bytes |}).
  set (wa := extend rec _).
  assert (Hrec : heap wa !! new_loc w = Some rec) by apply lookup_insert_eq.
  unfold bind at 1.
  destruct (CreateUser clock (new_loc _) wa) as [[err|] wc|] eqn:Hc; [done| |done].
  change (new_loc _) with (new_loc w) in Hc.
  apply (CreateUser_success_inv _ _ _ _ _ Hrec) in Hc as [_ ->].
  assert (Hrec' : heap (after_create clock wa rec) !! new_loc w = Some rec).
  { unfold after_create; cbn [heap].
    rewrite lookup_insert_ne by exact (new_loc_ne wa _ _ Hrec). exact Hrec. }
  unfold bind at 1.
  change (new_loc {| heap := heap w; store := store w; ticks := ticks w;
                     draws := S (S (draws w)) |}) with (new_loc w).
  rewrite (generateToken_issues _ _ _ _ _ _ Hrec').
  unfold bind, load.
  match goal with
  | |- context [heap (later 3 ?x) !! ?l] =>
    change (heap (later 3 x) !! l)
      with (heap (after_create clock wa rec) !! new_loc w)
  end.
  rewrite Hrec'. unfold ret. intros [= <- <-].
  exists (stamped clock wa rec). split_and!; try reflexivity.
  unfold stored_record, after_create; cbn.
  by rewrite !lookup_insert_eq.
Qed.

(** C3 fails on the code: registering alice in a process that has just
    started succeeds; the record the store holds for the new identifier
    was created at the first clock reading, and the view that is
    returned says it was created at the zero time. *)
Lemma Register_view_CreatedAt_example :
  ∃ resp w' r,
    auth.Register sample.clock sample.HMAC sample.GenerateFromPassword
      sample.Read sample.cfg sample.register_alice sample.w_start
      = Done (Ok resp) w' ∧
    stored_record w' (auth.ui_ID (auth.User resp)) = Some r ∧
    auth.ui_Email (auth.User resp) = Email r ∧
    auth.ui_CreatedAt (auth.User resp) = time.zero ∧
    CreatedAt r = sample.clock 0 ∧
    auth.ui_CreatedAt (auth.User resp) ≠ CreatedAt r.
Proof.
  assert (H : ∃ resp w',
             auth.Register sample.clock sample.HMAC sample.GenerateFromPassword
               sample.Read sample.cfg sample.register_alice sample.w_start
             = Done (Ok resp) w').
  { vm_compute. eexists _, _. reflexivity. }
  destruct H as (resp & w' & H).
  destruct (Register_view _ _ _ _ _ _ _ _ _ H)
    as (r & Hr & _ & Hemail & _ & _ & _ & Hzero & Hclock).
  exists resp, w', r. split_and!; try assumption.
  rewrite Hzero, Hclock. vm_compute. discriminate.
Qed.

(** ** An end-to-end run

    Registering alice in a process that has just started, logging in
    with her password and validating the token of the login resolves to
    the identifier [Register] returned. *)
Example register_login_validate :
  let run :=
    let! registered :=
      auth.Register sample.clock sample.HMAC sample.GenerateFromPassword
        sample.Read sample.cfg sample.register_alice in
    let! logged :=
      auth.Login sample.clock sample.HMAC sample.CompareHashAndPassword
        sample.cfg (auth.mkLoginRequest "a@x.com" "secret1") in
    match registered, logged with
    | Ok r, Ok l =>
      let! validated :=
        auth.ValidateToken sample.clock sample.HMAC sample.cfg (auth.Token l) in
      match validated with
      | Ok info => ret (Some (auth.ui_ID (auth.User r), auth.ui_ID info))
      | Err _ => ret None
      end
    | _, _ => ret None
    end in
  ∃ id w', run sample.w_start = Done (Some (id, id)) w'.
Proof. vm_compute. eexists _, _. reflexivity. Qed.

(** ** More properties of the identity store *)

Lemma DeleteUser_found w id l u :
  users (store w) !! id = Some l → heap w !! l = Some u →
  DeleteUser id w = Done None (after_delete w id u).
Proof.
  intros Hl Hu. unfold DeleteUser. go_unfold. by rewrite Hl, Hu.
Qed.

Lemma DeleteUser_missing w id :
  users (store w) !! id = None →
  DeleteUser id w = Done (Some ErrUserNotFound) w.
Proof. intros Hl. unfold DeleteUser. go_unfold. by rewrite Hl. Qed.

(** X1.  Deleting a stored record succeeds, leaves the heap alone, and
    afterwards the record is found neither under its identifier nor
    under its email nor under its username, while every other record
    and every other index entry is as before. *)
Theorem DeleteUser_removes_all_three_keys w id u :
  stored_record w id = Some u →
  ∃ w', DeleteUser id w = Done None w' ∧
        heap w' = heap w ∧
        GetUserByID id w' = Done (Err ErrUserNotFound) w' ∧
        GetUserByEmail (Email u) w' = Done (Err ErrUserNotFound) w' ∧
        GetUserByUsername (Username u) w' = Done (Err ErrUserNotFound) w' ∧
        (∀ id', id' ≠ id → stored_record w' id' = stored_record w id') ∧
        (∀ e, e ≠ Email u →
              emailIdx (store w') !! e = emailIdx (store w) !! e) ∧
        (∀ n, n ≠ Username u →
              usernameIdx (store w') !! n = usernameIdx (store w) !! n).
Proof.
  unfold stored_record. intros Hrec.
  destruct (users (store w) !! id) as [l|] eqn:Hl; [|done].
  exists (after_delete w id u). split_and!.
  - by apply DeleteUser_found with l.
  - done.
  - apply GetUserByID_missing. apply lookup_delete_eq.
  - apply GetUserByEmail_missing. apply lookup_delete_eq.
  - apply GetUserByUsername_missing. apply lookup_delete_eq.
  - intros id' Hne. unfold stored_record, after_delete; cbn.
    by rewrite lookup_delete_ne.
  - intros e Hne. by apply lookup_delete_ne.
  - intros n Hne. by apply lookup_delete_ne.
Qed.

Lemma DeleteUser_removes_all_three_keys_witness :
  ∃ w', DeleteUser "u1" sample.w2 = Done None w' ∧
        heap w' = heap sample.w2 ∧
        GetUserByID "u1" w' = Done (Err ErrUserNotFound) w' ∧
        GetUserByEmail "a@x.com" w' = Done (Err ErrUserNotFound) w' ∧
        GetUserByUsername "alice" w' = Done (Err ErrUserNotFound) w' ∧
        (∀ id', id' ≠ "u1" → stored_record w' id' = stored_record sample.w2 id') ∧
        (∀ e, e ≠ "a@x.com" →
              emailIdx (store w') !! e = emailIdx (store sample.w2) !! e) ∧
        (∀ n, n ≠ "alice" →
              usernameIdx (store w') !! n = usernameIdx (store sample.w2) !! n).
Proof.
  apply (DeleteUser_removes_all_three_keys sample.w2 "u1"
           (stamped sample.clock sample.w0 sample.alice)).
  vm_compute; reflexivity.
Defined.

(** A key that is not there: the lookups answer [ErrUserNotFound] and
    so does [DeleteUser], and none of them changes the state, not even
    by an allocation. *)
Lemma missing_key_is_not_found w :
  (∀ id, users (store w) !! id = None →
         GetUserByID id w = Done (Err ErrUserNotFound) w ∧
         DeleteUser id w = Done (Some ErrUserNotFound) w) ∧
  (∀ e, emailIdx (store w) !! e = None →
        GetUserByEmail e w = Done (Err ErrUserNotFound) w) ∧
  (∀ n, usernameIdx (store w) !! n = None →
        GetUserByUsername n w = Done (Err ErrUserNotFound) w).
Proof.
  split_and!.
  - intros id H. split; [by apply GetUserByID_missing|by apply DeleteUser_missing].
  - intros e H. by apply GetUserByEmail_missing.
  - intros n H. by apply GetUserByUsername_missing.
Qed.

(** X2.  Creating a record and then deleting it by its identifier gives
    back the store as it was before the creation. *)
Theorem Create_then_Delete_restores_store clock w p u w1 :
  heap w !! p = Some u →
  CreateUser clock p w = Done None w1 →
  ∃ w2, DeleteUser (ID u) w1 = Done None w2 ∧ store w2 = store w.
Proof.
  intros Hp Hc.
  destruct (CreateUser_success_inv _ _ _ _ _ Hp Hc) as [Hfree ->].
  exists (after_delete (after_create clock w u) (ID u) (stamped clock w u)).
  split.
  - apply DeleteUser_found with (new_loc w); apply lookup_insert_eq.
  - unfold after_delete, after_create; cbn.
    assert (users (store w) !! ID u = None) as H1.
    { destruct (users (store w) !! ID u) eqn:E; [|done].
      exfalso. apply Hfree. left. eauto. }
    assert (emailIdx (store w) !! Email u = None) as H2.
    { destruct (emailIdx (store w) !! Email u) eqn:E; [|done].
      exfalso. apply Hfree. right; left. eauto. }
    assert (usernameIdx (store w) !! Username u = None) as H3.
    { destruct (usernameIdx (store w) !! Username u) eqn:E; [|done].
      exfalso. apply Hfree. right; right. eauto. }
    rewrite !delete_insert_id by done. by destruct (store w).
Qed.

Lemma Create_then_Delete_restores_store_witness :
  ∃ w2, DeleteUser "u1" (after_create sample.clock sample.w0 sample.alice)
        = Done None w2 ∧ store w2 = store sample.w0.
Proof.
  apply (Create_then_Delete_restores_store sample.clock sample.w0 1%positive
           sample.alice (after_create sample.clock sample.w0 sample.alice)).
  - vm_compute; reflexivity.
  - vm_compute; reflexivity.
Defined.

Lemma extend_heap_subseteq v w : heap w ⊆ heap (extend v w).
Proof. apply insert_subseteq, new_loc_fresh. Qed.

(** X3.  The three lookups only read: whatever they answer, the store,
    the clock and the source of randomness are as before, and every
    object that was on the heap is unchanged. *)
Theorem lookups_only_read w w' r :
  (∀ id, GetUserByID id w = Done r w' →
         store w' = store w ∧ heap w ⊆ heap w' ∧
         ticks w' = ticks w ∧ draws w' = draws w) ∧
  (∀ e, GetUserByEmail e w = Done r w' →
        store w' = store w ∧ heap w ⊆ heap w' ∧
        ticks w' = ticks w ∧ draws w' = draws w) ∧
  (∀ n, GetUserByUsername n w = Done r w' →
        store w' = store w ∧ heap w ⊆ heap w' ∧
        ticks w' = ticks w ∧ draws w' = draws w).
Proof.
  split_and!.
  - intros id. unfold GetUserByID. go_unfold.
    destruct (users (store w) !! id) as [l|]; [|by intros [= _ <-]].
    destruct (heap w !! l) as [u|]; [|done]. intros [= _ <-].
    split_and!; try done. apply extend_heap_subseteq.
  - intros e. unfold GetUserByEmail. go_unfold.
    destruct (emailIdx (store w) !! e) as [id|]; [|by intros [= _ <-]].
    destruct (users (store w) !! id) as [l|]; [|done].
    destruct (heap w !! l) as [u|]; [|done]. intros [= _ <-].
    split_and!; try done. apply extend_heap_subseteq.
  - intros n. unfold GetUserByUsername. go_unfold.
    destruct (usernameIdx (store w) !! n) as [id|]; [|by intros [= _ <-]].
    destruct (users (store w) !! id) as [l|]; [|done].
    destruct (heap w !! l) as [u|]; [|done]. intros [= _ <-].
    split_and!; try done. apply extend_heap_subseteq.
Qed.

(** A successful [UpdateUser]: the record was there, the new email and
    the new username were unchanged or free, and the state is
    [after_update]. *)
Lemma UpdateUser_success_inv clock w p u w' :
  heap w !! p = Some u → UpdateUser clock p w = Done None w' →
  ∃ existing,
    stored_record w (ID u) = Some existing ∧
    (Email u = Email existing ∨ emailIdx (store w) !! Email u = None) ∧
    (Username u = Username existing ∨
     usernameIdx (store w) !! Username u = None) ∧
    w' = after_update clock w u existing.
Proof.
  intros Hp. unfold UpdateUser, stored_record, after_update. go_unfold.
  rewrite Hp.
  destruct (users (store w) !! ID u) as [l|]; [|done].
  destruct (heap w !! l) as [existing|]; [|done].
  destruct (decide (Email u = Email existing)) as [He|He]; cbn.
  - destruct (decide (Username u = Username existing)) as [Hn|Hn]; cbn.
    + intros [= <-]. exists existing. split_and!; auto.
      repeat case_decide; try congruence; reflexivity.
    + destruct (usernameIdx (store w) !! Username u) eqn:En; [done|]. cbn.
      intros [= <-]. exists existing. split_and!; auto.
      repeat case_decide; try congruence; reflexivity.
  - destruct (emailIdx (store w) !! Email u) eqn:Ee; [done|]. cbn.
    destruct (decide (Username u = Username existing)) as [Hn|Hn]; cbn.
    + intros [= <-]. exists existing. split_and!; auto.
      repeat case_decide; try congruence; reflexivity.
    + destruct (usernameIdx (store w) !! Username u) eqn:En; [done|]. cbn.
      intros [= <-]. exists existing. split_and!; auto.
      repeat case_decide; try congruence; reflexivity.
Qed.

Lemma stored_record_put w w' id r :
  (∀ id l, users (store w) !! id = Some l → is_Some (heap w !! l)) →
  users (store w') = <[id := new_loc w]> (users (store w)) →
  heap w' = <[new_loc w := r]> (heap w) →
  ∀ id', stored_record w' id'
         = if decide (id' = id) then Some r else stored_record w id'.
Proof.
  intros Halloc Hu Hh id'. unfold stored_record. rewrite Hu, Hh.
  destruct (decide (id' = id)) as [->|Hne].
  - by rewrite !lookup_insert_eq.
  - rewrite lookup_insert_ne by done.
    destruct (users (store w) !! id') as [l|] eqn:Hl; [|done].
    destruct (Halloc _ _ Hl) as [x Hx].
    rewrite lookup_insert_ne; [done|]. exact (new_loc_ne w l x Hx).
Qed.

Lemma consistent_empty h n d :
  consistent {| heap := h; store := NewMemoryUserStore; ticks := n; draws := d |}.
Proof.
  unfold consistent, stored_record; cbn. split_and!.
  - intros e id H. by rewrite lookup_empty in H.
  - intros e id H. by rewrite lookup_empty in H.
  - intros id u H. by rewrite lookup_empty in H.
  - intros id l H. by rewrite lookup_empty in H.
Qed.

Lemma consistent_extend v w : consistent w → consistent (extend v w).
Proof.
  intros (H1 & H2 & H3 & H4).
  assert (Hrec : ∀ id, stored_record (extend v w) id = stored_record w id).
  { intros id. unfold stored_record, extend; cbn.
    destruct (users (store w) !! id) as [l|] eqn:Hl; [|done].
    destruct (H4 _ _ Hl) as [x Hx].
    rewrite lookup_insert_ne; [done|]. exact (new_loc_ne w l x Hx). }
  unfold consistent. setoid_rewrite Hrec. split_and!; try done.
  intros id l Hl. cbn in Hl. destruct (H4 _ _ Hl) as [x Hx].
  exists x. unfold extend; cbn.
  rewrite lookup_insert_ne; [done|]. exact (new_loc_ne w l x Hx).
Qed.

Lemma consistent_after_create clock w u :
  consistent w → ¬ taken (store w) u → consistent (after_create clock w u).
Proof.
  intros (H1 & H2 & H3 & H4) Hfree.
  assert (users (store w) !! ID u = None) as F1.
  { destruct (users (store w) !! ID u) eqn:E; [|done].
    exfalso. apply Hfree. left. eauto. }
  assert (emailIdx (store w) !! Email u = None) as F2.
  { destruct (emailIdx (store w) !! Email u) eqn:E; [|done].
    exfalso. apply Hfree. right; left. eauto. }
  assert (usernameIdx (store w) !! Username u = None) as F3.
  { destruct (usernameIdx (store w) !! Username u) eqn:E; [|done].
    exfalso. apply Hfree. right; right. eauto. }
  pose proof (stored_record_put w (after_create clock w u) (ID u)
                (stamped clock w u) H4 eq_refl eq_refl) as Hrec.
  assert (Hnone : stored_record w (ID u) = None).
  { unfold stored_record. by rewrite F1. }
  unfold consistent. setoid_rewrite Hrec. cbn [after_create store emailIdx usernameIdx users heap].
  split_and!.
  - intros e id. destruct (decide (e = Email u)) as [->|Hne].
    + rewrite lookup_insert_eq. intros [= <-]. rewrite decide_True by done. eauto.
    + rewrite lookup_insert_ne by done. intros He.
      destruct (H1 _ _ He) as (x & Hx & Hxe).
      destruct (decide (id = ID u)) as [->|]; [congruence|eauto].
  - intros n id. destruct (decide (n = Username u)) as [->|Hne].
    + rewrite lookup_insert_eq. intros [= <-]. rewrite decide_True by done. eauto.
    + rewrite lookup_insert_ne by done. intros Hn.
      destruct (H2 _ _ Hn) as (x & Hx & Hxe).
      destruct (decide (id = ID u)) as [->|]; [congruence|eauto].
  - intros id x. destruct (decide (id = ID u)) as [->|Hne].
    + intros [= <-]. cbn. by rewrite !lookup_insert_eq.
    + intros Hx. destruct (H3 _ _ Hx) as (Hid & He & Hn).
      split; [done|].
      rewrite !lookup_insert_ne; [done| |]; intros E; congruence.
  - intros id l. destruct (decide (id = ID u)) as [->|Hne].
    + rewrite lookup_insert_eq. intros [= <-]. by rewrite lookup_insert_eq.
    + rewrite lookup_insert_ne by done. intros Hl.
      destruct (H4 _ _ Hl) as [x Hx]. exists x.
      rewrite lookup_insert_ne; [done|]. exact (new_loc_ne w l x Hx).
Qed.

Lemma consistent_after_delete w id u :
  consistent w → stored_record w id = Some u → consistent (after_delete w id u).
Proof.
  intros (H1 & H2 & H3 & H4) Hu.
  destruct (H3 _ _ Hu) as (Hid & Hue & Hun).
  assert (Hrec : ∀ id', stored_record (after_delete w id u) id'
                        = if decide (id' = id) then None else stored_record w id').
  { intros id'. unfold stored_record, after_delete; cbn.
    destruct (decide (id' = id)) as [->|Hne].
    - by rewrite lookup_delete_eq.
    - by rewrite lookup_delete_ne. }
  unfold consistent. setoid_rewrite Hrec.
  cbn [after_delete store emailIdx usernameIdx users heap].
  split_and!.
  - intros e id'. rewrite lookup_delete_Some. intros [Hne He].
    destruct (H1 _ _ He) as (x & Hx & Hxe).
    destruct (decide (id' = id)) as [->|]; [congruence|eauto].
  - intros n id'. rewrite lookup_delete_Some. intros [Hne Hn].
    destruct (H2 _ _ Hn) as (x & Hx & Hxe).
    destruct (decide (id' = id)) as [->|]; [congruence|eauto].
  - intros id' x. destruct (decide (id' = id)) as [->|Hne]; [done|].
    intros Hx. destruct (H3 _ _ Hx) as (Hid' & He & Hn).
    split; [done|].
    rewrite !lookup_delete_ne; [done| |]; intros E; congruence.
  - intros id' l. rewrite lookup_delete_Some. intros [_ Hl]. eauto.
Qed.

Lemma consistent_after_update clock w u existing :
  consistent w →
  stored_record w (ID u) = Some existing →
  (Email u = Email existing ∨ emailIdx (store w) !! Email u = None) →
  (Username u = Username existing ∨ usernameIdx (store w) !! Username u = None) →
  consistent (after_update clock w u existing).
Proof.
  intros (H1 & H2 & H3 & H4) Hex Hemail Hname.
  destruct (H3 _ _ Hex) as (Hid & Hxe & Hxn).
  pose proof (stored_record_put w (after_update clock w u existing) (ID u)
                (with_UpdatedAt (clock (ticks w)) u) H4 eq_refl eq_refl) as Hrec.
  unfold consistent. setoid_rewrite Hrec.
  cbn [after_update store emailIdx usernameIdx users heap].
  split_and!.
  - intros e id. destruct (decide (Email u = Email existing)) as [Heq|Hne].
    + intros He. destruct (H1 _ _ He) as (x & Hx & Hxe').
      destruct (decide (id = ID u)) as [->|]; [|eauto].
      exists (with_UpdatedAt (clock (ticks w)) u). split; [done|].
      cbn. congruence.
    + destruct Hemail as [|Hfree]; [done|].
      destruct (decide (e = Email u)) as [->|Hne'].
      * rewrite lookup_insert_eq. intros [= <-].
        rewrite decide_True by done. eauto.
      * rewrite lookup_insert_ne by done. rewrite lookup_delete_Some.
        intros [Hne'' He]. destruct (H1 _ _ He) as (x & Hx & Hxe').
        destruct (decide (id = ID u)) as [->|]; [congruence|eauto].
  - intros n id. destruct (decide (Username u = Username existing)) as [Heq|Hne].
    + intros Hn. destruct (H2 _ _ Hn) as (x & Hx & Hxn').
      destruct (decide (id = ID u)) as [->|]; [|eauto].
      exists (with_UpdatedAt (clock (ticks w)) u). split; [done|].
      cbn. congruence.
    + destruct Hname as [|Hfree]; [done|].
      destruct (decide (n = Username u)) as [->|Hne'].
      * rewrite lookup_insert_eq. intros [= <-].
        rewrite decide_True by done. eauto.
      * rewrite lookup_insert_ne by done. rewrite lookup_delete_Some.
        intros [Hne'' Hn]. destruct (H2 _ _ Hn) as (x & Hx & Hxn').
        destruct (decide (id = ID u)) as [->|]; [congruence|eauto].
  - intros id x. destruct (decide (id = ID u)) as [->|Hne].
    + intros [= <-]. cbn. split; [done|]. split.
      * destruct (decide (Email u = Email existing)) as [->|]; [done|].
        apply lookup_insert_eq.
      * destruct (decide (Username u = Username existing)) as [->|]; [done|].
        apply lookup_insert_eq.
    + intros Hx. destruct (H3 _ _ Hx) as (Hid' & He & Hn).
      split; [done|]. split.
      * destruct (decide (Email u = Email existing)); [done|].
        destruct Hemail as [|Hfree]; [done|].
        rewrite lookup_insert_ne by congruence.
        rewrite lookup_delete_ne by congruence. done.
      * destruct (decide (Username u = Username existing)); [done|].
        destruct Hname as [|Hfree]; [done|].
        rewrite lookup_insert_ne by congruence.
        rewrite lookup_delete_ne by congruence. done.
  - intros id l. destruct (decide (id = ID u)) as [->|Hne].
    + rewrite lookup_insert_eq. intros [= <-]. by rewrite lookup_insert_eq.
    + rewrite lookup_insert_ne by done. intros Hl.
      destruct (H4 _ _ Hl) as [x Hx]. exists x.
      rewrite lookup_insert_ne; [done|]. exact (new_loc_ne w l x Hx).
Qed.

Lemma UpdateUser_failure_cases clock w p e w' :
  UpdateUser clock p w = Done (Some e) w' →
  (e = ErrUserNotFound ∧ w' = w) ∨ e = ErrUserExists.
Proof.
  unfold UpdateUser. go_unfold.
  destruct (heap w !! p) as [u|]; [|done].
  destruct (users (store w) !! ID u) as [l|]; [|intros [= <- <-]; by left].
  destruct (heap w !! l) as [existing|]; [|done].
  destruct (decide (Email u = Email existing)); cbn.
  - destruct (decide (Username u = Username existing)); cbn; [done|].
    destruct (usernameIdx (store w) !! Username u); cbn; [|done].
    intros [= <- _]. by right.
  - destruct (emailIdx (store w) !! Email u); cbn; [intros [= <- _]; by right|].
    destruct (decide (Username u = Username existing)); cbn; [done|].
    destruct (usernameIdx (store w) !! Username u); cbn; [|done].
    intros [= <- _]. by right.
Qed.

Lemma CreateUser_nil clock w p :
  heap w !! p = None → CreateUser clock p w = Panic.
Proof. intros Hp. unfold CreateUser. go_unfold. by rewrite Hp. Qed.

Lemma UpdateUser_nil clock w p :
  heap w !! p = None → UpdateUser clock p w = Panic.
Proof. intros Hp. unfold UpdateUser. go_unfold. by rewrite Hp. Qed.

Lemma consistent_run_op clock o w e w' :
  consistent w → run_op clock o w = Done e w' → clean o e → consistent w'.
Proof.
  intros Hc Hrun Hclean. destruct o as [p|p|id]; unfold run_op in Hrun.
  - destruct (heap w !! p) as [u|] eqn:Hp.
    + destruct (decide (taken (store w) u)) as [Ht|Ht].
      * rewrite (CreateUser_taken _ _ _ _ Hp Ht) in Hrun. by injection Hrun as _ <-.
      * rewrite (CreateUser_fresh _ _ _ _ Hp Ht) in Hrun. injection Hrun as _ <-.
        by apply consistent_after_create.
    + by rewrite (CreateUser_nil _ _ _ Hp) in Hrun.
  - destruct e as [e|].
    + destruct (UpdateUser_failure_cases _ _ _ _ _ Hrun) as [[_ ->] | ->]; [done|].
      by cbn in Hclean.
    + destruct (heap w !! p) as [u|] eqn:Hp.
      * destruct (UpdateUser_success_inv _ _ _ _ _ Hp Hrun)
          as (existing & Hex & He & Hn & ->).
        by apply consistent_after_update.
      * by rewrite (UpdateUser_nil _ _ _ Hp) in Hrun.
  - destruct (users (store w) !! id) as [l|] eqn:Hl.
    + destruct Hc as (H1 & H2 & H3 & H4). destruct (H4 _ _ Hl) as [u Hu].
      rewrite (DeleteUser_found _ _ _ _ Hl Hu) in Hrun. injection Hrun as _ <-.
      apply consistent_after_delete; [done|]. unfold stored_record. by rewrite Hl.
    + rewrite (DeleteUser_missing _ _ Hl) in Hrun. by injection Hrun as _ <-.
Qed.

(** X4.  The consistency of the three maps survives every sequence of
    [CreateUser], [UpdateUser] and [DeleteUser] calls in which no
    [UpdateUser] is answered with [ErrUserExists], whatever the other
    answers are. *)
Theorem consistent_after_clean_operations clock os w es w' :
  consistent w →
  run_ops clock os w = Done es w' →
  Forall2 clean os es →
  consistent w'.
Proof.
  revert w es. induction os as [|o os IH]; intros w es Hc Hrun Hclean.
  - cbn in Hrun. by injection Hrun as _ <-.
  - cbn in Hrun.
    destruct (run_op clock o w) as [e w1|] eqn:Ho; [|done].
    destruct (run_ops clock os w1) as [es' w2|] eqn:Hos; [|done].
    injection Hrun as <- <-.
    apply Forall2_cons in Hclean as [Hce Hces].
    apply (IH w1 es'); [|done|done].
    by apply (consistent_run_op clock o w e w1).
Qed.

Lemma consistent_after_clean_operations_witness :
  ∃ es w',
    run_ops sample.clock
      [Create 1%positive; Create 2%positive; Update 4%positive; Delete "u2";
       Delete "u2"] sample.w0 = Done es w' ∧
    consistent w'.
Proof.
  destruct (run_ops sample.clock
      [Create 1%positive; Create 2%positive; Update 4%positive; Delete "u2";
       Delete "u2"] sample.w0) as [es w'|] eqn:Hrun.
  - exists es, w'. split; [done|].
    apply (consistent_after_clean_operations sample.clock
             [Create 1%positive; Create 2%positive; Update 4%positive;
              Delete "u2"; Delete "u2"] sample.w0 es w').
    + apply consistent_empty.
    + exact Hrun.
    + vm_compute in Hrun. injection Hrun as <- _.
      repeat constructor; cbn; discriminate.
  - vm_compute in Hrun. discriminate.
Defined.

(** X5.  In a consistent state no lookup panics, and every identifier
    an index points to is a key of the record map. *)
Theorem consistent_lookups_never_panic w :
  consistent w →
  index_sound (store w) ∧
  (∀ id, GetUserByID id w ≠ Panic) ∧
  (∀ e, GetUserByEmail e w ≠ Panic) ∧
  (∀ n, GetUserByUsername n w ≠ Panic).
Proof.
  intros (H1 & H2 & H3 & H4).
  assert (Hkey : ∀ id u, stored_record w id = Some u →
                 ∃ l, users (store w) !! id = Some l ∧ heap w !! l = Some u).
  { intros id u. unfold stored_record.
    destruct (users (store w) !! id) as [l|]; [eauto|done]. }
  split_and!.
  - split.
    + intros e id He. destruct (H1 _ _ He) as (u & Hu & _).
      destruct (Hkey _ _ Hu) as (l & Hl & _). eauto.
    + intros n id Hn. destruct (H2 _ _ Hn) as (u & Hu & _).
      destruct (Hkey _ _ Hu) as (l & Hl & _). eauto.
  - intros id. destruct (users (store w) !! id) as [l|] eqn:Hl.
    + destruct (H4 _ _ Hl) as [u Hu]. by rewrite (GetUserByID_found _ _ l u).
    + by rewrite GetUserByID_missing.
  - intros e. destruct (emailIdx (store w) !! e) as [id|] eqn:He.
    + destruct (H1 _ _ He) as (u & Hu & _).
      destruct (Hkey _ _ Hu) as (l & Hl & Hh).
      by rewrite (GetUserByEmail_found _ _ id l u).
    + by rewrite GetUserByEmail_missing.
  - intros n. destruct (usernameIdx (store w) !! n) as [id|] eqn:Hn.
    + destruct (H2 _ _ Hn) as (u & Hu & _).
      destruct (Hkey _ _ Hu) as (l & Hl & Hh).
      by rewrite (GetUserByUsername_found _ _ id l u).
    + by rewrite GetUserByUsername_missing.
Qed.

Lemma sample_w2_consistent : consistent sample.w2.
Proof.
  unfold sample.w2. apply consistent_after_create.
  - apply consistent_after_create; [apply consistent_empty|].
    intros [[? H]|[[? H]|[? H]]]; vm_compute in H; discriminate.
  - intros [[? H]|[[? H]|[? H]]]; vm_compute in H; discriminate.
Qed.

Lemma consistent_lookups_never_panic_witness :
  index_sound (store sample.w2) ∧
  (∀ id, GetUserByID id sample.w2 ≠ Panic) ∧
  (∀ e, GetUserByEmail e sample.w2 ≠ Panic) ∧
  (∀ n, GetUserByUsername n sample.w2 ≠ Panic).
Proof.
  apply (consistent_lookups_never_panic sample.w2). apply sample_w2_consistent.
Defined.

(** X6.  In a consistent state the three keys lead to the same record:
    a lookup by email (or by username) that succeeds returns a record
    that carries that email (that username), and the lookups by the
    identifier and by the other key of that record return the same
    answer. *)
Theorem consistent_lookups_agree w q w' :
  consistent w →
  (∀ e, GetUserByEmail e w = Done (Ok q) w' →
        ∃ u, heap w' !! q = Some u ∧ Email u = e ∧
             GetUserByID (ID u) w = Done (Ok q) w' ∧
             GetUserByUsername (Username u) w = Done (Ok q) w') ∧
  (∀ n, GetUserByUsername n w = Done (Ok q) w' →
        ∃ u, heap w' !! q = Some u ∧ Username u = n ∧
             GetUserByID (ID u) w = Done (Ok q) w' ∧
             GetUserByEmail (Email u) w = Done (Ok q) w').
Proof.
  intros (H1 & H2 & H3 & H4).
  assert (Hkey : ∀ id u, stored_record w id = Some u →
                 ∃ l, users (store w) !! id = Some l ∧ heap w !! l = Some u).
  { intros id u. unfold stored_record.
    destruct (users (store w) !! id) as [l|]; [eauto|done]. }
  split.
  - intros e Hget.
    destruct (emailIdx (store w) !! e) as [id|] eqn:He;
      [|by rewrite GetUserByEmail_missing in Hget].
    destruct (H1 _ _ He) as (u & Hu & Hue).
    destruct (H3 _ _ Hu) as (Hid & _ & Hn).
    destruct (Hkey _ _ Hu) as (l & Hl & Hh).
    rewrite (GetUserByEmail_found _ _ id l u) in Hget by done.
    injection Hget as <- <-. exists u. split_and!.
    + apply lookup_insert_eq.
    + done.
    + rewrite Hid. by apply GetUserByID_found with l.
    + by apply GetUserByUsername_found with id l.
  - intros n Hget.
    destruct (usernameIdx (store w) !! n) as [id|] eqn:Hn;
      [|by rewrite GetUserByUsername_missing in Hget].
    destruct (H2 _ _ Hn) as (u & Hu & Hun).
    destruct (H3 _ _ Hu) as (Hid & He & _).
    destruct (Hkey _ _ Hu) as (l & Hl & Hh).
    rewrite (GetUserByUsername_found _ _ id l u) in Hget by done.
    injection Hget as <- <-. exists u. split_and!.
    + apply lookup_insert_eq.
    + done.
    + rewrite Hid. by apply GetUserByID_found with l.
    + by apply GetUserByEmail_found with id l.
Qed.

Lemma consistent_lookups_agree_witness :
  ∃ u, heap (extend (stamped sample.clock sample.w0 sample.alice) sample.w2)
         !! new_loc sample.w2 = Some u ∧
       Email u = "a@x.com" ∧
       GetUserByID (ID u) sample.w2
         = Done (Ok (new_loc sample.w2))
                (extend (stamped sample.clock sample.w0 sample.alice) sample.w2) ∧
       GetUserByUsername (Username u) sample.w2
         = Done (Ok (new_loc sample.w2))
                (extend (stamped sample.clock sample.w0 sample.alice) sample.w2).
Proof.
  apply (proj1 (consistent_lookups_agree sample.w2 (new_loc sample.w2)
                  (extend (stamped sample.clock sample.w0 sample.alice) sample.w2)
                  sample_w2_consistent) "a@x.com").
  vm_compute; reflexivity.
Defined.

Lemma run_ops_keep_consistent clock os :
  ∀ w es w', consistent w → run_ops clock os w = Done es w' →
             Forall2 clean os es → consistent w'.
Proof.
  induction os as [|o os IH]; intros w es w' Hc Hrun Hclean.
  - cbn in Hrun. by injection Hrun as _ <-.
  - cbn in Hrun.
    destruct (run_op clock o w) as [e w1|] eqn:Ho; [|done].
    destruct (run_ops clock os w1) as [es' w2|] eqn:Hos; [|done].
    injection Hrun as <- <-.
    apply Forall2_cons in Hclean as [Hce Hces].
    apply (IH w1 es' w2); [|done|done].
    by apply (consistent_run_op clock o w e w1).
Qed.

(** X7.  Uniqueness of emails and usernames.  In every state that
    [CreateUser], [UpdateUser] and [DeleteUser] calls reach from an
    empty store, as long as no [UpdateUser] among them was answered with
    [ErrUserExists], two records stored under different identifiers
    have different emails and different usernames. *)
Theorem distinct_records_have_distinct_keys clock os h n d es w id1 id2 u1 u2 :
  run_ops clock os {| heap := h; store := NewMemoryUserStore;
                      ticks := n; draws := d |} = Done es w →
  Forall2 clean os es →
  stored_record w id1 = Some u1 →
  stored_record w id2 = Some u2 →
  id1 ≠ id2 →
  Email u1 ≠ Email u2 ∧ Username u1 ≠ Username u2.
Proof.
  intros Hrun Hclean Hu1 Hu2 Hne.
  pose proof (run_ops_keep_consistent clock os _ es w (consistent_empty h n d)
                Hrun Hclean) as (_ & _ & H3 & _).
  destruct (H3 _ _ Hu1) as (_ & He1 & Hn1).
  destruct (H3 _ _ Hu2) as (_ & He2 & Hn2).
  split; intros E; rewrite E in *; congruence.
Qed.

Lemma distinct_records_have_distinct_keys_witness :
  Email (stamped sample.clock sample.w0 sample.alice)
    ≠ Email (stamped sample.clock
               (after_create sample.clock sample.w0 sample.alice) sample.bob) ∧
  Username (stamped sample.clock sample.w0 sample.alice)
    ≠ Username (stamped sample.clock
                  (after_create sample.clock sample.w0 sample.alice) sample.bob).
Proof.
  apply (distinct_records_have_distinct_keys sample.clock
           [Create 1%positive; Create 2%positive] (heap sample.w0) 0 0
           [None; None] sample.w2 "u1" "u2"
           (stamped sample.clock sample.w0 sample.alice)
           (stamped sample.clock (after_create sample.clock sample.w0 sample.alice)
              sample.bob)).
  - vm_compute; reflexivity.
  - repeat constructor.
  - vm_compute; reflexivity.
  - vm_compute; reflexivity.
  - discriminate.
Defined.

(** X8.  After a successful [UpdateUser] in a consistent state the
    updated record is what the lookups by its identifier, its email and
    its username return; and when the email (the username) has
    changed, nothing is found under the old one. *)
Theorem UpdateUser_moves_index_entries clock w p u existing w' :
  consistent w →
  heap w !! p = Some u →
  stored_record w (ID u) = Some existing →
  UpdateUser clock p w = Done None w' →
  let r := with_UpdatedAt (clock (ticks w)) u in
  GetUserByID (ID u) w' = Done (Ok (new_loc w')) (extend r w') ∧
  GetUserByEmail (Email u) w' = Done (Ok (new_loc w')) (extend r w') ∧
  GetUserByUsername (Username u) w' = Done (Ok (new_loc w')) (extend r w') ∧
  (Email u ≠ Email existing →
     GetUserByEmail (Email existing) w' = Done (Err ErrUserNotFound) w') ∧
  (Username u ≠ Username existing →
     GetUserByUsername (Username existing) w' = Done (Err ErrUserNotFound) w').
Proof.
  intros Hc Hp Hex Hup r.
  destruct (UpdateUser_success_inv _ _ _ _ _ Hp Hup)
    as (existing' & Hex' & He & Hn & ->).
  assert (existing' = existing) as -> by congruence.
  pose proof (consistent_after_update clock w u existing Hc Hex He Hn)
    as (_ & _ & H3 & _).
  assert (Hu : users (store (after_update clock w u existing)) !! ID u
               = Some (new_loc w)) by apply lookup_insert_eq.
  assert (Hh : heap (after_update clock w u existing) !! new_loc w = Some r)
    by apply lookup_insert_eq.
  assert (Hr : stored_record (after_update clock w u existing) (ID u) = Some r).
  { unfold stored_record. by rewrite Hu. }
  destruct (H3 _ _ Hr) as (_ & Hre & Hrn).
  split_and!.
  - by apply GetUserByID_found with (new_loc w).
  - by apply GetUserByEmail_found with (ID u) (new_loc w).
  - by apply GetUserByUsername_found with (ID u) (new_loc w).
  - intros Hne. apply GetUserByEmail_missing. cbn.
    rewrite decide_False by done.
    rewrite lookup_insert_ne by done. apply lookup_delete_eq.
  - intros Hne. apply GetUserByUsername_missing. cbn.
    rewrite decide_False by done.
    rewrite lookup_insert_ne by done. apply lookup_delete_eq.
Qed.

Lemma UpdateUser_moves_index_entries_witness :
  ∃ w', UpdateUser sample.clock (new_loc sample.w2) sample2.w2 = Done None w' ∧
        GetUserByEmail "alice@y.org" w'
          = Done (Ok (new_loc w'))
                 (extend (with_UpdatedAt (sample.clock 4) sample2.alice_moved) w') ∧
        GetUserByEmail "a@x.com" w' = Done (Err ErrUserNotFound) w' ∧
        GetUserByUsername "alice" w' = Done (Err ErrUserNotFound) w'.
Proof.
  destruct (UpdateUser sample.clock (new_loc sample.w2) sample2.w2)
    as [[e|] w'|] eqn:Hup; [vm_compute in Hup; discriminate| |
                           vm_compute in Hup; discriminate].
  exists w'. split; [done|].
  destruct (UpdateUser_moves_index_entries sample.clock sample2.w2
              (new_loc sample.w2) sample2.alice_moved
              (stamped sample.clock sample.w0 sample.alice) w')
    as (_ & He & _ & Hold & Hold').
  - apply consistent_extend, sample_w2_consistent.
  - vm_compute; reflexivity.
  - vm_compute; reflexivity.
  - exact Hup.
  - split; [exact He|]. split; [apply Hold|apply Hold']; discriminate.
Defined.

Lemma Forall2_with_Forall_r {A B} (P : A → B → Prop) (Q : B → Prop) l k :
  Forall2 P l k → Forall Q k → Forall2 (λ x y, P x y ∧ Q y) l k.
Proof.
  induction 1 as [|x y l k Hxy Hlk IH]; intros Hk; [constructor|].
  apply Forall_cons in Hk as [Hy Hk]. constructor; auto.
Qed.

Lemma copy_all_spec ps :
  ∀ w, Forall (λ p, is_Some (heap w !! p)) ps →
  ∃ qs w', copy_all ps w = Done qs w' ∧
           store w' = store w ∧ ticks w' = ticks w ∧ draws w' = draws w ∧
           heap w ⊆ heap w' ∧
           Forall2 (λ q p, heap w' !! q = heap w !! p ∧ heap w !! q = None) qs ps ∧
           NoDup qs.
Proof.
  induction ps as [|p ps IH]; intros w Hall.
  - exists [], w. split_and!; try done. constructor.
  - apply Forall_cons in Hall as [[u Hu] Hall].
    assert (Hall1 : Forall (λ p, is_Some (heap (extend u w) !! p)) ps).
    { eapply Forall_impl; [exact Hall|]. intros p' [x Hx]. exists x.
      eapply lookup_weaken; [exact Hx|apply extend_heap_subseteq]. }
    destruct (IH (extend u w) Hall1)
      as (qs & w' & Hrun & Hs & Ht & Hd & Hsub & Hrec & Hnd).
    assert (Hnew : ∀ q, q ∈ qs → q ≠ new_loc w).
    { intros q Hin ->. apply list_elem_of_lookup in Hin as [i Hi].
      destruct (Forall2_lookup_l _ _ _ i _ Hrec Hi) as (p' & _ & _ & Hfresh).
      unfold extend in Hfresh; cbn in Hfresh.
      by rewrite lookup_insert_eq in Hfresh. }
    exists (new_loc w :: qs), w'. split_and!; try done.
    + cbn. go_unfold. rewrite Hu. fold (extend u w). by rewrite Hrun.
    + etrans; [apply extend_heap_subseteq|done].
    + constructor.
      * split; [|apply new_loc_fresh].
        rewrite Hu. eapply lookup_weaken; [|exact Hsub]. apply lookup_insert_eq.
      * pose proof (Forall2_with_Forall_r _ _ _ _ Hrec Hall) as Hrec'.
        eapply Forall2_impl; [exact Hrec'|]. cbn.
        intros q p' [[Hq Hfresh] [x Hx]].
        unfold extend in Hq, Hfresh; cbn in Hq, Hfresh.
        rewrite lookup_insert_ne in Hq by exact (new_loc_ne w p' x Hx).
        split; [done|].
        destruct (decide (new_loc w = q)) as [<-|Hne].
        -- by rewrite lookup_insert_eq in Hfresh.
        -- by rewrite lookup_insert_ne in Hfresh.
    + constructor; [|done]. intros Hin. by apply (Hnew _ Hin).
Qed.

(** X9.  [ListUsers] returns a snapshot: when every pointer of the
    record map is allocated it succeeds, whatever order the run time
    visits the map in; the store and the objects on the heap are as
    before; there is one returned pointer per stored record, all of them
    fresh and different from each other; and the records behind them are
    the stored records, up to order. *)
Theorem ListUsers_returns_snapshot range_order w :
  visits_each_once range_order →
  (∀ id l, users (store w) !! id = Some l → is_Some (heap w !! l)) →
  ∃ qs w', ListUsers range_order w = Done (Ok qs) w' ∧
           store w' = store w ∧ heap w ⊆ heap w' ∧
           length qs = size (users (store w)) ∧
           NoDup qs ∧
           Forall (λ q, heap w !! q = None) qs ∧
           (λ q, heap w' !! q) <$> qs
             ≡ₚ (λ l, heap w !! l) <$> (map_to_list (users (store w))).*2.
Proof.
  intros Horder Halloc.
  assert (Hall : Forall (λ p, is_Some (heap w !! p)) (range_order (users (store w)))).
  { rewrite (Horder (users (store w))). apply Forall_forall. intros l Hl.
    apply list_elem_of_fmap in Hl as ([id l'] & -> & Hin).
    apply elem_of_map_to_list in Hin. by apply (Halloc id). }
  destruct (copy_all_spec _ w Hall)
    as (qs & w' & Hrun & Hs & _ & _ & Hsub & Hrec & Hnd).
  exists qs, w'. split_and!; try done.
  - unfold ListUsers. go_unfold. by rewrite Hrun.
  - rewrite (Forall2_length _ _ _ Hrec), (Horder (users (store w))).
    by rewrite length_fmap, length_map_to_list.
  - clear -Hrec. induction Hrec as [|q p qs ps [_ Hq] _ IH]; constructor; done.
  - rewrite <- (Horder (users (store w))).
    assert ((λ q, heap w' !! q) <$> qs
            = (λ l, heap w !! l) <$> range_order (users (store w))) as ->; [|done].
    clear -Hrec. induction Hrec as [|q p qs ps [Hq _] _ IH]; [done|].
    cbn. by rewrite Hq, IH.
Qed.

Lemma ListUsers_returns_snapshot_witness :
  ∃ qs w', ListUsers sample2.range_order sample.w2 = Done (Ok qs) w' ∧
           store w' = store sample.w2 ∧ heap sample.w2 ⊆ heap w' ∧
           length qs = size (users (store sample.w2)) ∧
           NoDup qs ∧
           Forall (λ q, heap sample.w2 !! q = None) qs ∧
           (λ q, heap w' !! q) <$> qs
             ≡ₚ (λ l, heap sample.w2 !! l)
                  <$> (map_to_list (users (store sample.w2))).*2.
Proof.
  apply (ListUsers_returns_snapshot sample2.range_order sample.w2).
  - intros m. reflexivity.
  - apply sample_w2_consistent.
Defined.

(** ** More properties of the auth service *)

(** X10.  [GetUserProfile] answers [ErrUserNotFound] for an identifier
    that is not a key of the record map and leaves the state as it was;
    for a stored record it answers the public view of that record,
    whether the record is active or not. *)
Theorem GetUserProfile_views_stored_record w id :
  (users (store w) !! id = None →
     auth.GetUserProfile id w = Done (Err auth.ErrUserNotFound) w) ∧
  (∀ u, stored_record w id = Some u →
     auth.GetUserProfile id w = Done (Ok (auth.userToUserInfo u)) (extend u w)).
Proof.
  split.
  - intros Hnone. unfold auth.GetUserProfile, bind.
    rewrite GetUserByID_missing by done. by destruct (decide _).
  - intros u Hu. unfold stored_record in Hu.
    destruct (users (store w) !! id) as [l|] eqn:Hl; [|done].
    unfold auth.GetUserProfile, bind.
    rewrite (GetUserByID_found _ _ l u) by done. by rewrite load_copy.
Qed.

Lemma Login_accepts clock HMAC compare cfg req w id u :
  emailIdx (store w) !! auth.lr_Email req = Some id →
  stored_record w id = Some u →
  IsActive u = true →
  compare (PasswordHash u) (auth.lr_Password req) = true →
  auth.Login clock HMAC compare cfg req w
  = Done (Ok (login_response clock HMAC cfg (ticks w) u)) (later 3 (extend u w)).
Proof.
  intros He Hu Hact Hpw. unfold stored_record in Hu.
  destruct (users (store w) !! id) as [l|] eqn:Hl; [|done].
  unfold auth.Login, bind.
  rewrite (GetUserByEmail_found _ _ id l u) by done.
  rewrite load_copy, Hact. cbn [negb]. unfold auth.verifyPassword.
  rewrite Hpw. cbn [negb].
  rewrite (generateToken_issues _ _ _ _ u) by apply lookup_insert_eq.
  unfold load.
  change (heap (later 3 (extend u w)) !! new_loc w)
    with (heap (extend u w) !! new_loc w).
  unfold extend at 1; cbn [heap]. by rewrite lookup_insert_eq.
Qed.

Lemma Login_success_inv clock HMAC compare cfg req w resp w1 :
  auth.Login clock HMAC compare cfg req w = Done (Ok resp) w1 →
  ∃ id u,
    emailIdx (store w) !! auth.lr_Email req = Some id ∧
    stored_record w id = Some u ∧
    IsActive u = true ∧
    compare (PasswordHash u) (auth.lr_Password req) = true ∧
    resp = login_response clock HMAC cfg (ticks w) u ∧
    w1 = later 3 (extend u w).
Proof.
  intros Hlogin.
  destruct (emailIdx (store w) !! auth.lr_Email req) as [id|] eqn:He.
  - destruct (users (store w) !! id) as [l|] eqn:Hl.
    + destruct (heap w !! l) as [u|] eqn:Hu.
      * assert (Hrec : stored_record w id = Some u).
        { unfold stored_record. by rewrite Hl. }
        destruct (IsActive u) eqn:Hact.
        -- destruct (compare (PasswordHash u) (auth.lr_Password req)) eqn:Hpw.
           ++ rewrite (Login_accepts _ _ _ _ _ _ id u) in Hlogin by done.
              injection Hlogin as <- <-. by exists id, u.
           ++ exfalso. revert Hlogin. unfold auth.Login, bind.
              rewrite (GetUserByEmail_found _ _ id l u) by done.
              rewrite load_copy, Hact. cbn [negb].
              unfold auth.verifyPassword. by rewrite Hpw.
        -- exfalso. revert Hlogin. unfold auth.Login, bind.
           rewrite (GetUserByEmail_found _ _ id l u) by done.
           by rewrite load_copy, Hact.
      * exfalso. revert Hlogin. unfold auth.Login, bind, GetUserByEmail.
        go_unfold. by rewrite He, Hl, Hu.
    + exfalso. revert Hlogin. unfold auth.Login, bind, GetUserByEmail.
      go_unfold. by rewrite He, Hl.
  - exfalso. revert Hlogin. unfold auth.Login, bind.
    rewrite GetUserByEmail_missing by done. by destruct (decide _).
Qed.

(** A token issued for a record with the identifier of [U] is accepted
    while [U] is stored under that identifier and active and the clock
    readings of the validation lie between issuance and expiry. *)
Lemma ValidateToken_issued clock HMAC cfg n u w U :
  (∀ i j, i ≤ j → (clock i ≤ clock j)%Z) →
  S (S n) ≤ ticks w →
  stored_record w (ID u) = Some U →
  IsActive U = true →
  (clock (S (ticks w))
   < jwt.NewNumericDate
       (time.Add (clock n) (config.TokenDuration (config.Auth cfg))))%Z →
  auth.ValidateToken clock HMAC cfg
    (signed HMAC cfg jwt.HS256 (issued_claims clock cfg n u)) w
  = Done (Ok (auth.userToUserInfo U)) (extend U (later 2 w)).
Proof.
  intros Hmono Hlater Hrec Hact Hbefore.
  rewrite ValidateToken_signed by done.
  pose proof (Hmono (ticks w) (S (ticks w)) ltac:(lia)) as Hstep.
  pose proof (Hmono (S (S n)) (ticks w) ltac:(lia)) as Hsince.
  pose proof (Truncate_le (clock (S (S n))) jwt.TimePrecision) as Htr.
  unfold jwt.Validate, jwt.verifyExpiresAt, jwt.verifyNotBefore.
  cbn [issued_claims auth.Registered jwt.ExpiresAt jwt.NotBefore].
  unfold time.Before.
  destruct (Z.ltb_spec (clock (ticks w))
              (jwt.NewNumericDate
                 (time.Add (clock n) (config.TokenDuration (config.Auth cfg)))));
    [|lia].
  destruct (Z.ltb_spec (clock (ticks w)) (jwt.NewNumericDate (clock (S (S n)))));
    [unfold jwt.NewNumericDate in *; lia|].
  cbn [negb auth.UserID].
  destruct (Z.ltb_spec
              (jwt.NewNumericDate
                 (time.Add (clock n) (config.TokenDuration (config.Auth cfg))))
              (clock (S (ticks w)))); [lia|].
  unfold stored_record in Hrec.
  destruct (users (store w) !! ID u) as [l|] eqn:Hl; [|done].
  rewrite (GetUserByID_found _ _ l U) by done.
  by rewrite load_copy, Hact.
Qed.

(** X11.  Login, then validation: in a consistent state, the token a
    successful [Login] returns, presented right after the login and
    before its expiry claim, is answered with the very view the login
    returned. *)
Theorem Login_then_ValidateToken clock HMAC compare cfg req w resp w1 :
  (∀ i j, i ≤ j → (clock i ≤ clock j)%Z) →
  consistent w →
  auth.Login clock HMAC compare cfg req w = Done (Ok resp) w1 →
  (clock (S (ticks w1)) < jwt.NewNumericDate (auth.ExpiresAt resp))%Z →
  ∃ w2, auth.ValidateToken clock HMAC cfg (auth.Token resp) w1
        = Done (Ok (auth.User resp)) w2.
Proof.
  intros Hmono Hc Hlogin Hbefore.
  destruct (Login_success_inv _ _ _ _ _ _ _ _ Hlogin)
    as (id & u & He & Hu & Hact & Hpw & -> & ->).
  destruct Hc as (H1 & H2 & H3 & H4). destruct (H3 _ _ Hu) as (Hid & _ & _).
  eexists. apply ValidateToken_issued; try done.
  - cbn. lia.
  - rewrite Hid. unfold stored_record in *. cbn.
    destruct (users (store w) !! id) as [l|] eqn:Hl; [|done].
    rewrite lookup_insert_ne; [done|]. exact (new_loc_ne w l u Hu).
Qed.

Lemma Login_then_ValidateToken_witness :
  ∃ w2, auth.ValidateToken sample.clock sample.HMAC sample.cfg
          (auth.Token (login_response sample.clock sample.HMAC sample.cfg (ticks sample.w2)
                         (stamped sample.clock sample.w0 sample.alice)))
          (later 3 (extend (stamped sample.clock sample.w0 sample.alice) sample.w2))
        = Done (Ok (auth.userToUserInfo
                      (stamped sample.clock sample.w0 sample.alice))) w2.
Proof.
  apply (Login_then_ValidateToken sample.clock sample.HMAC
           sample.CompareHashAndPassword sample.cfg
           (auth.mkLoginRequest "a@x.com" "secret1") sample.w2
           (login_response sample.clock sample.HMAC sample.cfg (ticks sample.w2)
              (stamped sample.clock sample.w0 sample.alice))
           (later 3 (extend (stamped sample.clock sample.w0 sample.alice)
                       sample.w2))).
  - intros i j Hij. unfold sample.clock. lia.
  - apply sample_w2_consistent.
  - apply (Login_accepts _ _ _ _ _ _ "u1"); vm_compute; reflexivity.
  - vm_compute; reflexivity.
Defined.

(** A successful [Register], read backwards: neither the email nor the
    username was indexed, hashing and identifier generation succeeded,
    the identifier was free, and the state and the answer are those of
    [CreateUser] and [generateToken] on the record [Register] built. *)
Lemma Register_success_inv clock HMAC generate read cfg req w resp w' :
  auth.Register clock HMAC generate read cfg req w = Done (Ok resp) w' →
  ∃ hashed bytes,
    generate (auth.rr_Password req) (config.BCryptCost (config.Auth cfg)) (draws w)
      = Some hashed ∧
    read 16 (S (draws w)) = Some bytes ∧
    emailIdx (store w) !! auth.rr_Email req = None ∧
    usernameIdx (store w) !! auth.rr_Username req = None ∧
    users (store w) !! auth.EncodeToString bytes = None ∧
    w' = later 3 (after_create clock
                    (extend (new_record req hashed bytes) (drawn 2 w))
                    (new_record req hashed bytes)) ∧
    resp = login_response clock HMAC cfg (S (S (ticks w)))
             (new_record req hashed bytes).
Proof.
  unfold auth.Register. unfold bind at 1.
  destruct (GetUserByEmail _ w) as [[?|e1] w1|] eqn:H1; [done| |done].
  assert (He : emailIdx (store w) !! auth.rr_Email req = None).
  { revert H1. unfold GetUserByEmail. go_unfold.
    destruct (emailIdx (store w) !! auth.rr_Email req) as [id|]; [|done].
    destruct (users (store w) !! id) as [l|]; [|done].
    by destruct (heap w !! l). }
  apply GetUserByEmail_error_state in H1 as ->. unfold bind at 1.
  destruct (GetUserByUsername _ w) as [[?|e2] w1|] eqn:H2; [done| |done].
  assert (Hn : usernameIdx (store w) !! auth.rr_Username req = None).
  { revert H2. unfold GetUserByUsername. go_unfold.
    destruct (usernameIdx (store w) !! auth.rr_Username req) as [id|]; [|done].
    destruct (users (store w) !! id) as [l|]; [|done].
    by destruct (heap w !! l). }
  apply GetUserByUsername_error_state in H2 as ->.
  unfold bind at 1, auth.hashPassword, bind at 1, auth.draw.
  destruct (generate _ _ _) as [hashedPassword|] eqn:Hgen; [|done].
  unfold ret at 1, bind at 1, auth.generateID, bind at 1, auth.draw.
  cbn [draws].
  destruct (read _ _) as [bytes|] eqn:Hread; [|done].
  unfold ret at 1, bind at 1, alloc.
  fold (new_record req hashedPassword bytes).
  set (rec := new_record req hashedPassword bytes).
  set (wa := extend rec _).
  assert (Hrec : heap wa !! new_loc w = Some rec) by apply lookup_insert_eq.
  unfold bind at 1.
  destruct (CreateUser clock (new_loc _) wa) as [[err|] wc|] eqn:Hc; [done| |done].
  change (new_loc _) with (new_loc w) in Hc.
  apply (CreateUser_success_inv _ _ _ _ _ Hrec) in Hc as [Hfree ->].
  assert (Hrec' : heap (after_create clock wa rec) !! new_loc w = Some rec).
  { unfold after_create; cbn [heap].
    rewrite lookup_insert_ne by exact (new_loc_ne wa _ _ Hrec). exact Hrec. }
  unfold bind at 1.
  change (new_loc {| heap := heap w; store := store w; ticks := ticks w;
                     draws := S (S (draws w)) |}) with (new_loc w).
  rewrite (generateToken_issues _ _ _ _ _ _ Hrec').
  unfold bind, load.
  match goal with
  | |- context [heap (later 3 ?x) !! ?l] =>
    change (heap (later 3 x) !! l)
      with (heap (after_create clock wa rec) !! new_loc w)
  end.
  rewrite Hrec'. unfold ret. intros [= <- <-].
  exists hashedPassword, bytes. split_and!; try done.
  destruct (users (store w) !! auth.EncodeToString bytes) eqn:E; [|done].
  exfalso. apply Hfree. left. cbn. eauto.
Qed.

(** X12.  Register, then login: when the comparison primitive accepts
    every hash the hashing primitive produced for the same password, a
    successful [Register] is followed by a successful [Login] with the
    same email and password, and the login answers the identifier, the
    email and the username the registration answered. *)
Theorem Register_then_Login clock HMAC generate compare read cfg req w resp w1 :
  (∀ password cost n hashed,
     generate password cost n = Some hashed → compare hashed password = true) →
  auth.Register clock HMAC generate read cfg req w = Done (Ok resp) w1 →
  ∃ resp' w2,
    auth.Login clock HMAC compare cfg
      (auth.mkLoginRequest (auth.rr_Email req) (auth.rr_Password req)) w1
      = Done (Ok resp') w2 ∧
    auth.ui_ID (auth.User resp') = auth.ui_ID (auth.User resp) ∧
    auth.ui_Email (auth.User resp') = auth.ui_Email (auth.User resp) ∧
    auth.ui_Username (auth.User resp') = auth.ui_Username (auth.User resp).
Proof.
  intros Hbcrypt Hreg.
  destruct (Register_success_inv _ _ _ _ _ _ _ _ _ Hreg)
    as (hashed & bytes & Hgen & _ & _ & _ & _ & -> & ->).
  set (rec := new_record req hashed bytes).
  set (wa := extend rec (drawn 2 w)).
  eexists _, _. split.
  - apply (Login_accepts _ _ _ _ _ _ (ID rec) (stamped clock wa rec)).
    + cbn. apply lookup_insert_eq.
    + unfold stored_record; cbn. by rewrite !lookup_insert_eq.
    + done.
    + cbn. by apply (Hbcrypt _ _ _ _ Hgen).
  - done.
Qed.

Lemma Register_then_Login_witness :
  ∃ resp w1,
    auth.Register sample.clock sample.HMAC sample.GenerateFromPassword
      sample.Read sample.cfg sample.register_alice sample.w_start
      = Done (Ok resp) w1 ∧
    ∃ resp' w2,
      auth.Login sample.clock sample.HMAC sample.CompareHashAndPassword sample.cfg
        (auth.mkLoginRequest "a@x.com" "secret1") w1
        = Done (Ok resp') w2 ∧
      auth.ui_ID (auth.User resp') = auth.ui_ID (auth.User resp) ∧
      auth.ui_Email (auth.User resp') = auth.ui_Email (auth.User resp) ∧
      auth.ui_Username (auth.User resp') = auth.ui_Username (auth.User resp).
Proof.
  destruct (auth.Register sample.clock sample.HMAC sample.GenerateFromPassword
              sample.Read sample.cfg sample.register_alice sample.w_start)
    as [[resp|e] w1|] eqn:Hreg;
    [|vm_compute in Hreg; discriminate|vm_compute in Hreg; discriminate].
  exists resp, w1. split; [done|].
  apply (Register_then_Login sample.clock sample.HMAC sample.GenerateFromPassword
           sample.CompareHashAndPassword sample.Read sample.cfg
           sample.register_alice sample.w_start resp w1).
  - intros password cost n hashed [= <-].
    unfold sample.CompareHashAndPassword. by apply bool_decide_eq_true_2.
  - exact Hreg.
Defined.

(** X13.  In a consistent state, [Register] with an email or a username
    that is indexed fails with the service's [ErrUserExists] before any
    hashing: the store, the clock and the source of randomness are as
    before. *)
Theorem Register_refuses_indexed_keys clock HMAC generate read cfg req w :
  consistent w →
  is_Some (emailIdx (store w) !! auth.rr_Email req) ∨
  is_Some (usernameIdx (store w) !! auth.rr_Username req) →
  ∃ w', auth.Register clock HMAC generate read cfg req w
        = Done (Err auth.ErrUserExists) w' ∧
        store w' = store w ∧ ticks w' = ticks w ∧ draws w' = draws w.
Proof.
  intros (H1 & H2 & H3 & H4) Hidx.
  assert (Hkey : ∀ id u, stored_record w id = Some u →
                 ∃ l, users (store w) !! id = Some l ∧ heap w !! l = Some u).
  { intros id u. unfold stored_record.
    destruct (users (store w) !! id) as [l|]; [eauto|done]. }
  unfold auth.Register. unfold bind at 1.
  destruct (emailIdx (store w) !! auth.rr_Email req) as [id|] eqn:He.
  - destruct (H1 _ _ He) as (u & Hu & _). destruct (Hkey _ _ Hu) as (l & Hl & Hh).
    rewrite (GetUserByEmail_found _ _ id l u) by done.
    exists (extend u w). by split_and!.
  - destruct Hidx as [[? ?]|[id Hn]]; [done|].
    rewrite GetUserByEmail_missing by done. unfold bind at 1.
    destruct (H2 _ _ Hn) as (u & Hu & _). destruct (Hkey _ _ Hu) as (l & Hl & Hh).
    rewrite (GetUserByUsername_found _ _ id l u) by done.
    exists (extend u w). by split_and!.
Qed.

Lemma Register_refuses_indexed_keys_witness :
  ∃ w', auth.Register sample.clock sample.HMAC sample.GenerateFromPassword
          sample.Read sample.cfg sample.register_alice sample.w2
        = Done (Err auth.ErrUserExists) w' ∧
        store w' = store sample.w2 ∧ ticks w' = ticks sample.w2 ∧
        draws w' = draws sample.w2.
Proof.
  apply (Register_refuses_indexed_keys sample.clock sample.HMAC
           sample.GenerateFromPassword sample.Read sample.cfg
           sample.register_alice sample.w2).
  - apply sample_w2_consistent.
  - left. exists "u1". vm_compute; reflexivity.
Defined.

Lemma ValidateToken_foreign clock HMAC cfg tok w :
  foreign HMAC cfg tok →
  auth.ValidateToken clock HMAC cfg tok w = Done (Err auth.ErrInvalidToken) w.
Proof.
  destruct tok as [raw|alg claims sig]; cbn; intros Hf.
  - done.
  - unfold auth.ValidateToken, bind, jwt.ParseWithClaims, auth.keyFunc.
    cbn [jwt.Method].
    destruct (jwt.is_SigningMethodHMAC alg) eqn:Halg; [|done].
    destruct Hf as [|Hsig]; [done|]. cbn [andb].
    by rewrite bool_decide_eq_false_2.
Qed.

(** X14.  A token string the service did not issue, because it does not
    parse, or names a signing method outside the HMAC family, or carries
    a signature that is not the MAC of its contents under the configured
    secret, is answered with [ErrInvalidToken] whatever its claims are;
    neither the clock nor the store is consulted. *)
Theorem ValidateToken_refuses_foreign_tokens clock HMAC cfg tok w :
  foreign HMAC cfg tok →
  auth.ValidateToken clock HMAC cfg tok w = Done (Err auth.ErrInvalidToken) w.
Proof. apply ValidateToken_foreign. Qed.

Lemma ValidateToken_refuses_foreign_tokens_witness :
  auth.ValidateToken sample.clock sample.HMAC sample.cfg
    (jwt.Compact jwt.none
       (issued_claims sample.clock sample.cfg 0 sample.alice) EmptyString)
    sample.w2
  = Done (Err auth.ErrInvalidToken) sample.w2.
Proof.
  apply (ValidateToken_refuses_foreign_tokens sample.clock sample.HMAC sample.cfg
           (jwt.Compact jwt.none
              (issued_claims sample.clock sample.cfg 0 sample.alice) EmptyString)
           sample.w2).
  left. reflexivity.
Defined.

Lemma GetUserByID_dangling w id l :
  users (store w) !! id = Some l → heap w !! l = None →
  GetUserByID id w = Panic.
Proof. intros Hl Hu. unfold GetUserByID. go_unfold. by rewrite Hl, Hu. Qed.

Lemma ValidateToken_Ok_inv clock HMAC cfg tok w info w' :
  auth.ValidateToken clock HMAC cfg tok w = Done (Ok info) w' →
  ∃ alg claims exp u,
    tok = signed HMAC cfg alg claims ∧
    jwt.is_SigningMethodHMAC alg = true ∧
    jwt.ExpiresAt (auth.Registered claims) = Some exp ∧
    (clock (ticks w) < exp)%Z ∧ (clock (S (ticks w)) ≤ exp)%Z ∧
    (∀ nbf, jwt.NotBefore (auth.Registered claims) = Some nbf →
            (nbf ≤ clock (ticks w))%Z) ∧
    stored_record w (auth.UserID claims) = Some u ∧
    IsActive u = true ∧
    info = auth.userToUserInfo u.
Proof.
  destruct tok as [raw|alg claims sig].
  { by unfold auth.ValidateToken, bind, jwt.ParseWithClaims. }
  destruct (jwt.is_SigningMethodHMAC alg) eqn:Halg;
    [|by rewrite ValidateToken_foreign by (cbn; auto)].
  destruct (decide (sig = HMAC alg (config.JWTSecret (config.Auth cfg))
                            (alg, claims))) as [->|Hsig];
    [|by rewrite ValidateToken_foreign by (cbn; auto)].
  fold (signed HMAC cfg alg claims). rewrite ValidateToken_signed by done.
  unfold jwt.Validate, jwt.verifyExpiresAt, jwt.verifyNotBefore.
  destruct (jwt.ExpiresAt (auth.Registered claims)) as [exp|] eqn:Hexp.
  - unfold time.Before at 1.
    destruct (Z.ltb_spec (clock (ticks w)) exp) as [Hlt|]; [|done].
    destruct (jwt.NotBefore (auth.Registered claims)) as [nbf|] eqn:Hnbf.
    + unfold time.Before at 1.
      destruct (Z.ltb_spec (clock (ticks w)) nbf) as [|Hge]; [done|].
      cbn [negb]. unfold time.Before.
      destruct (Z.ltb_spec exp (clock (S (ticks w)))) as [|Hle]; [done|].
      destruct (users (store w) !! auth.UserID claims) as [l|] eqn:Hl;
        [|by rewrite GetUserByID_missing by done; destruct (decide _)].
      destruct (heap w !! l) as [u|] eqn:Hu;
        [|by rewrite (GetUserByID_dangling (later 2 w) _ l)].
      rewrite (GetUserByID_found _ _ l u) by done. rewrite load_copy.
      destruct (IsActive u) eqn:Hact; [|done]. cbn [negb]. intros [= <- _].
      exists alg, claims, exp, u. split_and!; try done.
      * intros nbf' Heq. by simplify_eq.
      * unfold stored_record. by rewrite Hl.
    + unfold time.Before.
      destruct (Z.ltb_spec exp (clock (S (ticks w)))) as [|Hle]; [done|].
      destruct (users (store w) !! auth.UserID claims) as [l|] eqn:Hl;
        [|by rewrite GetUserByID_missing by done; destruct (decide _)].
      destruct (heap w !! l) as [u|] eqn:Hu;
        [|by rewrite (GetUserByID_dangling (later 2 w) _ l)].
      rewrite (GetUserByID_found _ _ l u) by done. rewrite load_copy.
      destruct (IsActive u) eqn:Hact; [|done]. cbn [negb]. intros [= <- _].
      exists alg, claims, exp, u. split_and!; try done.
      * intros nbf' Heq. congruence.
      * unfold stored_record. by rewrite Hl.
  - by destruct (jwt.NotBefore (auth.Registered claims)) as [nbf|];
      [destruct (negb _)|].
Qed.

(** X15.  What [ValidateToken] accepts: whenever it answers a view, the
    token string parsed, its signing method is of the HMAC family, its
    signature is the MAC of its contents under the configured secret,
    its expiry claim is present and lies after the first clock reading
    and not before the second, its not-before claim, when present, is
    not after the first reading, and the view is the one of an active
    record the store holds under the token's user identifier. *)
Theorem ValidateToken_accepts_only clock HMAC cfg tok w info w' :
  auth.ValidateToken clock HMAC cfg tok w = Done (Ok info) w' →
  ∃ alg claims exp u,
    tok = signed HMAC cfg alg claims ∧
    jwt.is_SigningMethodHMAC alg = true ∧
    jwt.ExpiresAt (auth.Registered claims) = Some exp ∧
    (clock (ticks w) < exp)%Z ∧ (clock (S (ticks w)) ≤ exp)%Z ∧
    (∀ nbf, jwt.NotBefore (auth.Registered claims) = Some nbf →
            (nbf ≤ clock (ticks w))%Z) ∧
    stored_record w (auth.UserID claims) = Some u ∧
    IsActive u = true ∧
    info = auth.userToUserInfo u.
Proof. apply ValidateToken_Ok_inv. Qed.

Lemma ValidateToken_accepts_only_witness :
  ∃ alg claims exp u,
    signed sample.HMAC sample.cfg jwt.HS256
      (issued_claims sample.clock sample.cfg 4 sample.alice)
      = signed sample.HMAC sample.cfg alg claims ∧
    jwt.is_SigningMethodHMAC alg = true ∧
    jwt.ExpiresAt (auth.Registered claims) = Some exp ∧
    (sample.clock (ticks (later 3 sample.w2)) < exp)%Z ∧
    (sample.clock (S (ticks (later 3 sample.w2))) ≤ exp)%Z ∧
    (∀ nbf, jwt.NotBefore (auth.Registered claims) = Some nbf →
            (nbf ≤ sample.clock (ticks (later 3 sample.w2)))%Z) ∧
    stored_record (later 3 sample.w2) (auth.UserID claims) = Some u ∧
    IsActive u = true ∧
    auth.userToUserInfo (stamped sample.clock sample.w0 sample.alice)
      = auth.userToUserInfo u.
Proof.
  apply (ValidateToken_accepts_only sample.clock sample.HMAC sample.cfg
           (signed sample.HMAC sample.cfg jwt.HS256
              (issued_claims sample.clock sample.cfg 4 sample.alice))
           (later 3 sample.w2)
           (auth.userToUserInfo (stamped sample.clock sample.w0 sample.alice))
           (extend (stamped sample.clock sample.w0 sample.alice)
              (later 2 (later 3 sample.w2)))).
  apply ValidateToken_issued.
  - intros i j Hij. unfold sample.clock. lia.
  - vm_compute; lia.
  - vm_compute; reflexivity.
  - vm_compute; reflexivity.
  - vm_compute; reflexivity.
Defined.

(** X16.  A correctly signed token without an expiry claim passes the
    parser, for which the claim is optional, and then makes
    [ValidateToken] panic: the expiry check reads through the nil
    [ExpiresAt] pointer. *)
Theorem ValidateToken_panics_without_expiry clock HMAC cfg alg claims w :
  jwt.is_SigningMethodHMAC alg = true →
  jwt.ExpiresAt (auth.Registered claims) = None →
  jwt.verifyNotBefore auth.JWTClaims auth.Registered claims (clock (ticks w)) = None →
  auth.ValidateToken clock HMAC cfg (signed HMAC cfg alg claims) w = Panic.
Proof.
  intros Halg Hexp Hnbf. rewrite ValidateToken_signed by done.
  unfold jwt.Validate, jwt.verifyExpiresAt. by rewrite Hexp, Hnbf.
Qed.

Lemma ValidateToken_panics_without_expiry_witness :
  auth.ValidateToken sample.clock sample.HMAC sample.cfg
    (signed sample.HMAC sample.cfg jwt.HS256
       (auth.mkJWTClaims "u1" "a@x.com" "alice"
          (jwt.mkRegisteredClaims "login-app" "u1" None None None)))
    sample.w2
  = Panic.
Proof.
  apply (ValidateToken_panics_without_expiry sample.clock sample.HMAC sample.cfg
           jwt.HS256
           (auth.mkJWTClaims "u1" "a@x.com" "alice"
              (jwt.mkRegisteredClaims "login-app" "u1" None None None))
           sample.w2); reflexivity.
Defined.

Lemma Truncate_gt t d : (0 < d)%Z → (t - d < time.Truncate t d)%Z.
Proof.
  intros Hd. unfold time.Truncate. destruct (Z.leb_spec d 0); [lia|].
  pose proof (Z.mod_pos_bound t d). lia.
Qed.

Lemma Truncate_multiple t d : (0 < d)%Z → (time.Truncate t d mod d = 0)%Z.
Proof.
  intros Hd. unfold time.Truncate. destruct (Z.leb_spec d 0); [lia|].
  rewrite Zminus_mod, Zmod_mod, Z.sub_diag. by apply Zmod_0_l.
Qed.

(** X17.  The expiry [generateToken] returns and the expiry claim of the
    token it returns: the claim is a whole number of seconds, it is not
    later than the returned instant, and it is less than one second
    earlier; the returned instant is the first clock reading plus the
    configured duration. *)
Theorem generateToken_expiry_claim clock HMAC cfg p w alg claims sig expiresAt w' :
  auth.generateToken clock HMAC cfg p w
    = Done (Ok (jwt.Compact alg claims sig, expiresAt)) w' →
  expiresAt = time.Add (clock (ticks w)) (config.TokenDuration (config.Auth cfg)) ∧
  ∃ exp, jwt.ExpiresAt (auth.Registered claims) = Some exp ∧
         (exp mod time.Second = 0)%Z ∧
         (exp ≤ expiresAt)%Z ∧ (expiresAt - time.Second < exp)%Z.
Proof.
  intros Hgen. destruct (heap w !! p) as [u|] eqn:Hp.
  - rewrite (generateToken_issues _ _ _ _ _ _ Hp) in Hgen.
    injection Hgen as <- <- <- <- <-. split; [done|].
    eexists. split; [reflexivity|]. unfold jwt.NewNumericDate, jwt.TimePrecision.
    split_and!.
    + by apply Truncate_multiple.
    + apply Truncate_le.
    + by apply Truncate_gt.
  - revert Hgen. unfold auth.generateToken. go_unfold. cbn. by rewrite Hp.
Qed.

Lemma generateToken_expiry_claim_witness :
  time.Add (sample.clock 4) (24 * time.Hour)%Z
    = time.Add (sample.clock (ticks sample.w2))
        (config.TokenDuration (config.Auth sample.cfg)) ∧
  ∃ exp, jwt.ExpiresAt (auth.Registered
                          (issued_claims sample.clock sample.cfg 4 sample.alice))
           = Some exp ∧
         (exp mod time.Second = 0)%Z ∧
         (exp ≤ time.Add (sample.clock 4) (24 * time.Hour)%Z)%Z ∧
         (time.Add (sample.clock 4) (24 * time.Hour)%Z - time.Second < exp)%Z.
Proof.
  apply (generateToken_expiry_claim sample.clock sample.HMAC sample.cfg
           1%positive sample.w2 jwt.HS256
           (issued_claims sample.clock sample.cfg 4 sample.alice)
           (sample.HMAC jwt.HS256 "secret"
              (jwt.HS256, issued_claims sample.clock sample.cfg 4 sample.alice))
           (time.Add (sample.clock 4) (24 * time.Hour)%Z)
           (later 3 sample.w2)).
  apply (generateToken_issues sample.clock sample.HMAC sample.cfg 1%positive
           sample.alice sample.w2).
  vm_compute; reflexivity.
Defined.

Lemma hexdigit_inj n m :
  (n < 16)%N → (m < 16)%N → auth.hexdigit n = auth.hexdigit m → n = m.
Proof.
  intros Hn Hm.
  assert (n = 0 ∨ n = 1 ∨ n = 2 ∨ n = 3 ∨ n = 4 ∨ n = 5 ∨ n = 6 ∨ n = 7 ∨
          n = 8 ∨ n = 9 ∨ n = 10 ∨ n = 11 ∨ n = 12 ∨ n = 13 ∨ n = 14 ∨
          n = 15)%N as Hn' by lia.
  assert (m = 0 ∨ m = 1 ∨ m = 2 ∨ m = 3 ∨ m = 4 ∨ m = 5 ∨ m = 6 ∨ m = 7 ∨
          m = 8 ∨ m = 9 ∨ m = 10 ∨ m = 11 ∨ m = 12 ∨ m = 13 ∨ m = 14 ∨
          m = 15)%N as Hm' by lia.
  repeat (destruct Hn' as [->|Hn']); [..|subst n];
    repeat (destruct Hm' as [->|Hm']); try subst m;
    cbn; intros H; try reflexivity; discriminate H.
Qed.

Lemma EncodeToString_length bytes :
  String.length (auth.EncodeToString bytes) = 2 * length bytes.
Proof. induction bytes as [|b bytes IH]; cbn; [done|]. rewrite IH. lia. Qed.

Lemma EncodeToString_inj a b :
  auth.EncodeToString a = auth.EncodeToString b → a = b.
Proof.
  revert b. induction a as [|x a IH]; intros [|y b]; cbn; try done.
  intros [= H1 H2 H3].
  pose proof (Byte.to_N_bounded x) as Hx.
  pose proof (Byte.to_N_bounded y) as Hy.
  apply hexdigit_inj in H1;
    [|apply N.Div0.div_lt_upper_bound; lia|apply N.Div0.div_lt_upper_bound; lia].
  apply hexdigit_inj in H2; [|by apply N.mod_lt|by apply N.mod_lt].
  assert (Byte.to_N x = Byte.to_N y) as Hxy.
  { rewrite (N.div_mod (Byte.to_N x) 16), (N.div_mod (Byte.to_N y) 16) by done.
    by rewrite H1, H2. }
  f_equal; [|by apply IH].
  pose proof (Byte.of_to_N x) as Ex. pose proof (Byte.of_to_N y) as Ey.
  rewrite Hxy in Ex. congruence.
Qed.

(** X18.  An identifier [generateID] returns is the hexadecimal encoding
    of the bytes it read: it has two characters per byte, no other byte
    string has that encoding, and one draw of randomness has been
    consumed.  When reading fails, so does [generateID]. *)
Theorem generateID_encodes_bytes read w :
  (read 16 (draws w) = None →
     auth.generateID read w = Done (Err auth.OfRand) (drawn 1 w)) ∧
  (∀ id w', auth.generateID read w = Done (Ok id) w' →
     ∃ bytes, read 16 (draws w) = Some bytes ∧
              id = auth.EncodeToString bytes ∧
              String.length id = 2 * length bytes ∧
              (∀ bytes', auth.EncodeToString bytes' = id → bytes' = bytes) ∧
              w' = drawn 1 w).
Proof.
  unfold auth.generateID, bind, auth.draw, ret. split.
  - by intros ->.
  - intros id w'. destruct (read 16 (draws w)) as [bytes|]; [|done].
    intros [= <- <-]. exists bytes. split_and!; try done.
    + apply EncodeToString_length.
    + intros bytes' H. by apply EncodeToString_inj.
Qed.

Lemma CreateUser_failure_inv clock w p e w' :
  CreateUser clock p w = Done (Some e) w' → e = ErrUserExists ∧ w' = w.
Proof.
  destruct (heap w !! p) as [u|] eqn:Hp;
    [|by rewrite (CreateUser_nil _ _ _ Hp)].
  destruct (decide (taken (store w) u)) as [Ht|Ht].
  - rewrite (CreateUser_taken _ _ _ _ Hp Ht). by intros [= <- <-].
  - by rewrite (CreateUser_fresh _ _ _ _ Hp Ht).
Qed.

Lemma ValidateToken_error_kinds clock HMAC cfg tok w e w' :
  auth.ValidateToken clock HMAC cfg tok w = Done (Err e) w' →
  e = auth.ErrInvalidToken ∨ e = auth.ErrTokenExpired.
Proof.
  destruct tok as [raw|alg claims sig].
  { unfold auth.ValidateToken, bind, jwt.ParseWithClaims, ret.
    intros [= <- _]. by left. }
  destruct (jwt.is_SigningMethodHMAC alg) eqn:Halg;
    [|rewrite ValidateToken_foreign by (cbn; auto);
      intros [= <- _]; by left].
  destruct (decide (sig = HMAC alg (config.JWTSecret (config.Auth cfg))
                            (alg, claims))) as [->|Hsig];
    [|rewrite ValidateToken_foreign by (cbn; auto);
      intros [= <- _]; by left].
  fold (signed HMAC cfg alg claims). rewrite ValidateToken_signed by done.
  destruct (jwt.Validate _ _ _ _); [intros [= <- _]; by left|].
  destruct (jwt.ExpiresAt _); [|done].
  destruct (time.Before _ _); [intros [= <- _]; by right|].
  destruct (GetUserByID _ _) as [[q|err] w2|] eqn:Hget; [| |done].
  - destruct (load _ _) as [u w3|]; [|done].
    destruct (negb _); [intros [= <- _]; by left|done].
  - apply GetUserByID_only_not_found in Hget as ->.
    destruct (decide _); [|done]. intros [= <- _]. by left.
Qed.

Lemma GetUserProfile_error_kinds id w e w' :
  auth.GetUserProfile id w = Done (Err e) w' → e = auth.ErrUserNotFound.
Proof.
  unfold auth.GetUserProfile, bind.
  destruct (GetUserByID id w) as [[q|err] w2|] eqn:Hget; [| |done].
  - by destruct (load _ _).
  - apply GetUserByID_only_not_found in Hget as ->.
    destruct (decide _); [|done]. by intros [= <- _].
Qed.

Lemma Register_error_kinds clock HMAC generate read cfg req w e w' :
  auth.Register clock HMAC generate read cfg req w = Done (Err e) w' →
  e = auth.ErrUserExists ∨ e = auth.OfBcrypt ∨ e = auth.OfRand ∨
  e = auth.OfStorage ErrUserExists.
Proof.
  unfold auth.Register. unfold bind at 1.
  destruct (GetUserByEmail _ w) as [[?|e1] w1|];
    [intros [= <- _]; by left| |done].
  unfold bind at 1.
  destruct (GetUserByUsername _ w1) as [[?|e2] w2|];
    [intros [= <- _]; by left| |done].
  unfold bind at 1, auth.hashPassword, bind at 1, auth.draw.
  destruct (generate _ _ _) as [hashedPassword|];
    [|intros [= <- _]; right; by left].
  unfold ret at 1, bind at 1, auth.generateID, bind at 1, auth.draw.
  destruct (read _ _) as [bytes|];
    [|intros [= <- _]; right; right; by left].
  unfold ret at 1, bind at 1, alloc. unfold bind at 1.
  destruct (CreateUser _ _ _) as [[err|] wc|] eqn:Hc; [| |done].
  - apply CreateUser_failure_inv in Hc as [-> _].
    intros [= <- _]. by repeat right.
  - unfold bind at 1.
    destruct (auth.generateToken _ _ _ _ _) as [[[tok ex]|err] wt|] eqn:Ht;
      [| |done].
    + unfold bind. by destruct (load _ _).
    + by apply generateToken_never_fails in Ht.
Qed.


(** X19.  The errors of the service.  [ValidateToken] fails with
    [ErrInvalidToken] or [ErrTokenExpired] only; [GetUserProfile] with
    [ErrUserNotFound] only; [Register] with the service's
    [ErrUserExists], with the error of the hashing or of the random
    source, or, when [CreateUser] refuses the record, with the store's
    own [ErrUserExists], which is passed on as it is. *)
Theorem service_error_kinds clock HMAC generate read cfg w e w' :
  (∀ tok, auth.ValidateToken clock HMAC cfg tok w = Done (Err e) w' →
          e = auth.ErrInvalidToken ∨ e = auth.ErrTokenExpired) ∧
  (∀ id, auth.GetUserProfile id w = Done (Err e) w' →
         e = auth.ErrUserNotFound) ∧
  (∀ req, auth.Register clock HMAC generate read cfg req w = Done (Err e) w' →
          e = auth.ErrUserExists ∨ e = auth.OfBcrypt ∨ e = auth.OfRand ∨
          e = auth.OfStorage ErrUserExists).
Proof.
  split_and!.
  - intros tok. apply ValidateToken_error_kinds.
  - intros id. apply GetUserProfile_error_kinds.
  - intros req. apply Register_error_kinds.
Qed.

(** ** Properties of the configuration loader *)

Lemma getBcryptCost_range env Atoi :
  (4 ≤ loader.getBcryptCost env Atoi ≤ 31)%Z.
Proof.
  unfold loader.getBcryptCost. destruct (decide _); [|lia].
  destruct (Atoi _) as [c|]; [|lia].
  destruct (Z.leb_spec 4 c); destruct (Z.leb_spec c 31); cbn; lia.
Qed.

(** X20.  Whatever the environment variables hold and whatever the
    environment is called, a configuration that [Load] returns has a
    bcrypt cost between 4 and 31; it is 12 in production and 8 in
    development, where [BCRYPT_COST] has no effect; elsewhere it is the
    value of [BCRYPT_COST] when that is set and parses to a number
    between 4 and 31, and 10 when it is unset, does not parse, or parses
    to a number outside that range. *)
Theorem Load_bcrypt_cost env Atoi environment cfg :
  loader.Load env Atoi environment = Ok cfg →
  let cost := config.BCryptCost (loader.Auth cfg) in
  let value := loader.Getenv env "BCRYPT_COST" in
  (4 ≤ cost ≤ 31)%Z ∧
  (environment = "production" → cost = 12%Z) ∧
  (environment = "development" → cost = 8%Z) ∧
  (environment ≠ "production" → environment ≠ "development" →
   (∀ c, value ≠ EmptyString → Atoi value = Some c → (4 ≤ c ≤ 31)%Z →
         cost = c) ∧
   (value = EmptyString ∨ Atoi value = None ∨
    (∃ c, Atoi value = Some c ∧ ¬ (4 ≤ c ≤ 31)%Z) → cost = 10%Z)).
Proof.
  unfold loader.Load.
  destruct (decide (environment = "production")) as [->|Hp].
  - destruct (decide _); [done|]. intros [= <-]. cbn.
    split; [lia|]. split; [done|]. split; [done|]. by intros ?.
  - destruct (decide (environment = "development")) as [->|Hd].
    + intros [= <-]. cbn.
      split; [lia|]. split; [done|]. split; [done|]. by intros _ ?.
    + intros [= <-]. cbn.
      split; [apply getBcryptCost_range|]. split; [done|]. split; [done|].
      intros _ _. unfold loader.getBcryptCost. split.
      * intros c Hne Hc Hrange. rewrite decide_True by done. rewrite Hc.
        destruct (Z.leb_spec 4 c); destruct (Z.leb_spec c 31); cbn; lia.
      * intros [Hempty|[Hnone|(c & Hc & Hout)]].
        -- by rewrite decide_False by (by intros ?).
        -- destruct (decide _); [|done]. by rewrite Hnone.
        -- destruct (decide _); [|done]. rewrite Hc.
           destruct (Z.leb_spec 4 c); destruct (Z.leb_spec c 31); cbn; lia.
Qed.

Lemma Load_bcrypt_cost_witness :
  let cost := 12%Z in
  let value := loader.Getenv {[ "JWT_SECRET" := "s3cret"; "BCRYPT_COST" := "4" ]}
                 "BCRYPT_COST" in
  (4 ≤ cost ≤ 31)%Z ∧
  ("production" = "production" → cost = 12%Z) ∧
  ("production" = "development" → cost = 8%Z) ∧
  ("production" ≠ "production" → "production" ≠ "development" →
   (∀ c, value ≠ EmptyString → (λ _, Some 4%Z) value = Some c →
         (4 ≤ c ≤ 31)%Z → cost = c) ∧
   (value = EmptyString ∨ (λ _, Some 4%Z) value = None ∨
    (∃ c, (λ _, Some 4%Z) value = Some c ∧ ¬ (4 ≤ c ≤ 31)%Z) → cost = 10%Z)).
Proof.
  apply (Load_bcrypt_cost {[ "JWT_SECRET" := "s3cret"; "BCRYPT_COST" := "4" ]}
           (λ _, Some 4%Z) "production"
           (loader.with_Level "warn"
              (loader.with_BCryptCost 12
                 {| loader.Server :=
                      {| loader.Port := "8080";
                         loader.ReadTimeout := (15 * time.Second)%Z;
                         loader.WriteTimeout := (15 * time.Second)%Z;
                         loader.IdleTimeout := (60 * time.Second)%Z |};
                    loader.Auth :=
                      {| config.JWTSecret := "s3cret";
                         config.TokenDuration := (24 * time.Hour)%Z;
                         config.BCryptCost := 4;
                         config.SessionTimeout := (24 * time.Hour)%Z |};
                    loader.Log := {| loader.Level := "info";
                                     loader.Format := "text" |} |}))).
  vm_compute; reflexivity.
Defined.

Lemma getEnv_default_iff env key d :
  loader.getEnv env key d = d ↔
  loader.Getenv env key = EmptyString ∨ loader.Getenv env key = d.
Proof.
  unfold loader.getEnv. destruct (decide _) as [Hne|Heq].
  - split; [auto|]. by intros [?|?].
  - apply dec_stable in Heq. split; auto.
Qed.

Lemma getEnv_other env key d :
  loader.getEnv env key d ≠ d →
  loader.getEnv env key d = loader.Getenv env key ∧
  loader.Getenv env key ≠ EmptyString ∧ loader.Getenv env key ≠ d.
Proof.
  unfold loader.getEnv. destruct (decide _) as [Hne|Heq]; [|done]. auto.
Qed.

(** X21.  [Load] fails exactly in production, when [JWT_SECRET] is
    unset, empty, or set to the placeholder itself; in every other case
    it returns a configuration, and a configuration returned in
    production carries the value of [JWT_SECRET], which is then neither
    empty nor the placeholder. *)
Theorem Load_fails_iff_placeholder_in_production env Atoi environment :
  let secret := loader.Getenv env "JWT_SECRET" in
  ((∃ msg, loader.Load env Atoi environment = Err msg) ↔
   environment = "production" ∧
   (secret = EmptyString ∨ secret = loader.placeholder)) ∧
  (∀ cfg, loader.Load env Atoi "production" = Ok cfg →
          config.JWTSecret (loader.Auth cfg) = secret ∧
          secret ≠ EmptyString ∧ secret ≠ loader.placeholder).
Proof.
  cbn zeta. unfold loader.Load, loader.with_Level, loader.with_BCryptCost.
  cbn [loader.Auth config.JWTSecret].
  pose proof (getEnv_default_iff env "JWT_SECRET" loader.placeholder) as Hd.
  pose proof (getEnv_other env "JWT_SECRET" loader.placeholder) as Ho.
  destruct (decide (loader.getEnv env "JWT_SECRET" loader.placeholder
                    = loader.placeholder)) as [Hpl|Hnpl].
  - split.
    + destruct (decide (environment = "production")) as [->|Hp].
      * split; [intros _; split; [done|by apply Hd]|by eauto].
      * split; [|by intros [? _]].
        destruct (decide (environment = "development")); by intros [? ?].
    + intros cfg. by rewrite decide_True by done.
  - split.
    + destruct (decide (environment = "production")) as [->|Hp].
      * split; [by intros [? ?]|]. intros [_ H]. by apply Hd in H.
      * split; [|by intros [? _]].
        destruct (decide (environment = "development")); by intros [? ?].
    + intros cfg. rewrite decide_True by done. intros [= <-].
      cbn. by apply Ho.
Qed.

(** X22.  The address [main] gives the HTTP server: a [-port] flag other
    than 8080 is the port, whatever [PORT] holds; with the flag at 8080,
    given or defaulted, the port is the value of [PORT] when that is set
    and not empty, and 8080 otherwise. *)
Theorem main_port_flag env Atoi flagEnv flagPort addr :
  loader.main_Addr env Atoi flagEnv flagPort = Ok addr →
  (flagPort ≠ "8080" → addr = ":" +:+ flagPort) ∧
  (flagPort = "8080" → loader.Getenv env "PORT" ≠ EmptyString →
     addr = ":" +:+ loader.Getenv env "PORT") ∧
  (flagPort = "8080" → loader.Getenv env "PORT" = EmptyString →
     addr = ":8080").
Proof.
  unfold loader.main_Addr.
  destruct (loader.Load env Atoi flagEnv) as [cfg|msg] eqn:Hload; [|done].
  assert (Hport : loader.Port (loader.Server cfg) = loader.getEnv env "PORT" "8080").
  { revert Hload. unfold loader.Load.
    repeat (destruct (decide _); try done); by intros [= <-]. }
  intros [= <-]. split_and!.
  - intros Hne. by rewrite decide_True by done.
  - intros -> Hset. rewrite decide_False by (by intros ?).
    rewrite Hport. unfold loader.getEnv. by rewrite decide_True by done.
  - intros -> Hunset. rewrite decide_False by (by intros ?).
    rewrite Hport. unfold loader.getEnv.
    by rewrite decide_False by (by intros ?).
Qed.

Lemma main_port_flag_witness :
  let env : gmap string string := {[ "PORT" := "9000" ]} in
  ("8080" ≠ "8080" → ":9000" = ":" +:+ "8080") ∧
  ("8080" = "8080" → loader.Getenv env "PORT" ≠ EmptyString →
     ":9000" = ":" +:+ loader.Getenv env "PORT") ∧
  ("8080" = "8080" → loader.Getenv env "PORT" = EmptyString →
     ":9000" = ":8080").
Proof.
  intros env.
  apply (main_port_flag env (λ _, None) "development" "8080" ":9000").
  vm_compute; reflexivity.
Defined.

(** ** Properties of the handlers *)

Lemma Split_nonempty s sep : handler.Split s sep ≠ [].
Proof.
  destruct s as [|c s]; cbn; [done|].
  destruct (decide (c = sep)); [done|]. by destruct (handler.Split s sep).
Qed.

Lemma Split_one s sep a :
  handler.Split s sep = [a] ↔ s = a ∧ occurs sep a = false.
Proof.
  revert a. induction s as [|c s IH]; intros a; cbn.
  - split; [by intros [= <-]|by intros [<- _]].
  - destruct (decide (c = sep)) as [->|Hne].
    + split.
      * intros [= <- H]. by apply Split_nonempty in H.
      * intros [<- H]. cbn in H. by rewrite bool_decide_eq_true_2 in H.
    + destruct (handler.Split s sep) as [|part parts] eqn:Hs;
        [by apply Split_nonempty in Hs|].
      split.
      * intros [= <- ->]. destruct (IH part) as [[-> Hp] _]; [done|].
        split; [done|]. cbn. by rewrite bool_decide_eq_false_2.
      * intros [<- H]. cbn in H. rewrite bool_decide_eq_false_2 in H by done.
        cbn in H. destruct (IH s) as [_ IH2].
        specialize (IH2 (conj eq_refl H)). by injection IH2 as -> ->.
Qed.

Lemma Split_two s sep a b :
  handler.Split s sep = [a; b] ↔
  s = a +:+ String sep b ∧ occurs sep a = false ∧ occurs sep b = false.
Proof.
  revert a. induction s as [|c s IH]; intros a; cbn.
  - split; [done|]. intros [H _]. by destruct a.
  - destruct (decide (c = sep)) as [->|Hne].
    + split.
      * intros [= <- H]. apply Split_one in H as [-> Hb]. by split_and!.
      * intros (H & Ha & Hb). destruct a as [|c' a]; cbn in H.
        -- injection H as ->. f_equal. apply Split_one. by split.
        -- injection H as <- _. cbn in Ha.
           by rewrite bool_decide_eq_true_2 in Ha.
    + destruct (handler.Split s sep) as [|part parts] eqn:Hs;
        [by apply Split_nonempty in Hs|].
      split.
      * intros [= <- ->]. destruct (IH part) as [(-> & Hp & Hb) _]; [done|].
        split_and!; try done. cbn. by rewrite bool_decide_eq_false_2.
      * intros (H & Ha & Hb). destruct a as [|c' a]; cbn in H.
        -- by injection H as ->.
        -- injection H as <- ->. cbn in Ha.
           rewrite bool_decide_eq_false_2 in Ha by done. cbn in Ha.
           destruct (IH a) as [_ IH2].
           specialize (IH2 (conj eq_refl (conj Ha Hb))).
           by injection IH2 as -> ->.
Qed.

Example Split_examples :
  handler.Split "Bearer abc" " " = ["Bearer"; "abc"] ∧
  handler.Split "Bearer  abc" " " = ["Bearer"; EmptyString; "abc"] ∧
  handler.Split "Bearer " " " = ["Bearer"; EmptyString] ∧
  handler.Split "Bearerabc" " " = ["Bearerabc"] ∧
  handler.Split EmptyString " " = [EmptyString].
Proof. by split_and!. Qed.

Lemma Middleware_bearer clock HMAC cfg decode authHeader token w :
  bearer_header authHeader token →
  handler.Middleware clock HMAC cfg decode authHeader w
  = match auth.ValidateToken clock HMAC cfg (decode token) w with
    | Done (Ok info) w' => Done (handler.Next info) w'
    | Done (Err err) w' => Done (handler.Abort (unauthorized (token_message err))) w'
    | Panic => Panic
    end.
Proof.
  intros [-> Hocc]. unfold handler.Middleware.
  rewrite decide_False by done.
  assert (handler.Split ("Bearer " +:+ token) " " = ["Bearer"; token]) as ->.
  { apply Split_two. by split_and!. }
  rewrite decide_False by (by intros ?). unfold bind.
  destruct (auth.ValidateToken _ _ _ _ _) as [[info|err] w'|]; [done| |done].
  by destruct err.
Qed.

Lemma Middleware_not_bearer clock HMAC cfg decode authHeader w :
  (∀ token, ¬ bearer_header authHeader token) →
  ∃ message,
    handler.Middleware clock HMAC cfg decode authHeader w
    = Done (handler.Abort (unauthorized message)) w.
Proof.
  intros Hnot. unfold handler.Middleware.
  destruct (decide (authHeader = EmptyString)); [by eexists|].
  destruct (handler.Split authHeader " ") as [|a [|b [|c rest]]] eqn:Hs;
    try by eexists.
  destruct (decide (a ≠ "Bearer")) as [|Heq]; [by eexists|].
  apply dec_stable in Heq as ->.
  apply Split_two in Hs as (-> & _ & Hb).
  exfalso. by apply (Hnot b).
Qed.

(** X23.  The middleware and the form of the [Authorization] header.
    For a header that is the word [Bearer], one space and a token
    without a space, the outcome is the one of [ValidateToken] on that
    token: the next handler is called with the view it answered, or the
    request is refused with 401 and the message of its error.  Every
    other header, be it empty, without a space, with a second space, or
    with another first word, is refused with 401 without the token
    being looked at or the state being touched. *)
Theorem Middleware_requires_bearer_header clock HMAC cfg decode authHeader w :
  (∀ token, bearer_header authHeader token →
     handler.Middleware clock HMAC cfg decode authHeader w
     = match auth.ValidateToken clock HMAC cfg (decode token) w with
       | Done (Ok info) w' => Done (handler.Next info) w'
       | Done (Err err) w' =>
         Done (handler.Abort (unauthorized (token_message err))) w'
       | Panic => Panic
       end) ∧
  ((∀ token, ¬ bearer_header authHeader token) →
     ∃ message,
       handler.Middleware clock HMAC cfg decode authHeader w
       = Done (handler.Abort (unauthorized message)) w).
Proof.
  split.
  - intros token. apply Middleware_bearer.
  - apply Middleware_not_bearer.
Qed.

Lemma bearer_header_dec authHeader :
  (∃ token, bearer_header authHeader token) ∨
  (∀ token, ¬ bearer_header authHeader token).
Proof.
  destruct (handler.Split authHeader " ") as [|a [|b [|c rest]]] eqn:Hs.
  - by apply Split_nonempty in Hs.
  - right. intros token [-> Hocc].
    assert (handler.Split ("Bearer " +:+ token) " " = ["Bearer"; token]) as Hs'.
    { apply Split_two. by split_and!. }
    congruence.
  - destruct (decide (a = "Bearer")) as [->|Hne].
    + left. exists b. apply Split_two in Hs as (-> & _ & Hb). by split.
    + right. intros token [-> Hocc].
      assert (handler.Split ("Bearer " +:+ token) " " = ["Bearer"; token]) as Hs'.
      { apply Split_two. by split_and!. }
      congruence.
  - right. intros token [-> Hocc].
    assert (handler.Split ("Bearer " +:+ token) " " = ["Bearer"; token]) as Hs'.
    { apply Split_two. by split_and!. }
    congruence.
Qed.

(** X24.  What the middleware lets through and how it refuses.  When it
    calls the next handler, the header had the bearer form, its token
    decodes to a token string signed under the configured secret with a
    method of the HMAC family, and the view put into the context is
    the one of an active record the store holds under the token's user
    identifier.  When it refuses, the response is a 401 with the error
    tag [unauthorized]. *)
Theorem Middleware_outcomes clock HMAC cfg decode authHeader w w' :
  (∀ info,
     handler.Middleware clock HMAC cfg decode authHeader w
       = Done (handler.Next info) w' →
     ∃ token alg claims u,
       bearer_header authHeader token ∧
       decode token = signed HMAC cfg alg claims ∧
       jwt.is_SigningMethodHMAC alg = true ∧
       stored_record w (auth.UserID claims) = Some u ∧
       IsActive u = true ∧
       info = auth.userToUserInfo u) ∧
  (∀ response,
     handler.Middleware clock HMAC cfg decode authHeader w
       = Done (handler.Abort response) w' →
     ∃ message, response = unauthorized message).
Proof.
  destruct (bearer_header_dec authHeader) as [[token Hb]|Hnot].
  - rewrite (Middleware_bearer _ _ _ _ _ token) by done.
    destruct (auth.ValidateToken _ _ _ _ _) as [[info|err] w1|] eqn:Hv.
    + split; [|done]. intros info' [= <- <-].
      destruct (ValidateToken_Ok_inv _ _ _ _ _ _ _ Hv)
        as (alg & claims & exp & u & Htok & Halg & _ & _ & _ & _ & Hu & Hact & ->).
      by exists token, alg, claims, u.
    + split; [done|]. intros response [= <- _]. by eexists.
    + done.
  - destruct (Middleware_not_bearer clock HMAC cfg decode authHeader w Hnot)
      as [message ->].
    split; [done|]. intros response [= <- _]. by eexists.
Qed.


(** X26.  The registration handler answers a request that passed
    binding with 201 and the answer of [Register]; with 409 when
    [Register] failed with the service's [ErrUserExists]; and with 500
    for every other failure, among them the store's [ErrUserExists]
    that [Register] passes on when the generated identifier is taken. *)
Theorem Register_handler_responses clock HMAC generate read cfg req w response w' :
  handler.Register clock HMAC generate read cfg (Some req) w = Done response w' →
  (∃ answer,
     auth.Register clock HMAC generate read cfg req w = Done (Ok answer) w' ∧
     response = handler.Succeeded handler.StatusCreated
                  "User registered successfully" (handler.OfLogin answer)) ∨
  (auth.Register clock HMAC generate read cfg req w
     = Done (Err auth.ErrUserExists) w' ∧
   response = handler.Failed handler.StatusConflict
                (handler.mkErrorResponse "registration_error"
                   "User already exists" handler.StatusConflict)) ∨
  (∃ err,
     auth.Register clock HMAC generate read cfg req w = Done (Err err) w' ∧
     (err = auth.OfBcrypt ∨ err = auth.OfRand ∨
      err = auth.OfStorage ErrUserExists) ∧
     response = handler.Failed handler.StatusInternalServerError
                  (handler.mkErrorResponse "registration_error"
                     "Registration failed" handler.StatusInternalServerError)).
Proof.
  unfold handler.Register, bind.
  destruct (auth.Register clock HMAC generate read cfg req w)
    as [[answer|err] w1|] eqn:Hr; [| |done].
  - intros [= <- <-]. left. by exists answer.
  - destruct (Register_error_kinds _ _ _ _ _ _ _ _ _ Hr) as [-> | [-> | [-> | ->]]];
      intros [= <- <-].
    + right; left. by split.
    + right; right. exists auth.OfBcrypt. split_and!; auto.
    + right; right. exists auth.OfRand. split_and!; auto.
    + right; right. exists (auth.OfStorage ErrUserExists). split_and!; auto.
Qed.

Lemma Register_handler_responses_witness :
  ∃ response w',
    handler.Register sample.clock sample.HMAC sample.GenerateFromPassword
      sample.Read sample.cfg (Some sample.register_alice) sample.w2
    = Done response w' ∧
    ((∃ answer,
        auth.Register sample.clock sample.HMAC sample.GenerateFromPassword
          sample.Read sample.cfg sample.register_alice sample.w2
        = Done (Ok answer) w' ∧
        response = handler.Succeeded handler.StatusCreated
                     "User registered successfully" (handler.OfLogin answer)) ∨
     (auth.Register sample.clock sample.HMAC sample.GenerateFromPassword
        sample.Read sample.cfg sample.register_alice sample.w2
      = Done (Err auth.ErrUserExists) w' ∧
      response = handler.Failed handler.StatusConflict
                   (handler.mkErrorResponse "registration_error"
                      "User already exists" handler.StatusConflict)) ∨
     (∃ err,
        auth.Register sample.clock sample.HMAC sample.GenerateFromPassword
          sample.Read sample.cfg sample.register_alice sample.w2
        = Done (Err err) w' ∧
        (err = auth.OfBcrypt ∨ err = auth.OfRand ∨
         err = auth.OfStorage ErrUserExists) ∧
        response = handler.Failed handler.StatusInternalServerError
                     (handler.mkErrorResponse "registration_error"
                        "Registration failed"
                        handler.StatusInternalServerError))).
Proof.
  destruct (handler.Register sample.clock sample.HMAC sample.GenerateFromPassword
              sample.Read sample.cfg (Some sample.register_alice) sample.w2)
    as [response w'|] eqn:H; [|vm_compute in H; discriminate].
  exists response, w'. split; [done|].
  exact (Register_handler_responses sample.clock sample.HMAC
           sample.GenerateFromPassword sample.Read sample.cfg
           sample.register_alice sample.w2 response w' H).
Defined.

(** X27.  The profile handler: without a user identifier in the context
    it answers 401 and does not call the service; for an identifier that
    is not a key of the record map it answers 404; for a stored record
    it answers 200 with the public view of that record. *)
Theorem Profile_handler_responses w userID :
  (userID = EmptyString →
     handler.Profile userID w
     = Done (handler.Failed handler.StatusUnauthorized
               (handler.mkErrorResponse "unauthorized" "User not authenticated"
                  handler.StatusUnauthorized)) w) ∧
  (userID ≠ EmptyString → users (store w) !! userID = None →
     handler.Profile userID w
     = Done (handler.Failed handler.StatusNotFound
               (handler.mkErrorResponse "profile_error" "User not found"
                  handler.StatusNotFound)) w) ∧
  (userID ≠ EmptyString → ∀ u, stored_record w userID = Some u →
     handler.Profile userID w
     = Done (handler.Succeeded handler.StatusOK "Profile retrieved successfully"
               (handler.OfProfile (auth.userToUserInfo u))) (extend u w)).
Proof.
  unfold handler.Profile. split_and!.
  - intros ->. by rewrite decide_True by done.
  - intros Hne Hnone. rewrite decide_False by done. unfold bind.
    unfold auth.GetUserProfile, bind.
    rewrite GetUserByID_missing by done. by destruct (decide _).
  - intros Hne u Hu. rewrite decide_False by done. unfold bind.
    unfold stored_record in Hu.
    destruct (users (store w) !! userID) as [l|] eqn:Hl; [|done].
    unfold auth.GetUserProfile, bind.
    rewrite (GetUserByID_found _ _ l u) by done. by rewrite load_copy.
Qed.
